(** * A shallow embedding of the SMC100C driver and of the print loop of
    dynamic-clip-software (src/src/SMC100C.cpp, src/src/individualCommands.cpp). *)

From Stdlib Require Import String Ascii ZArith List Lia.
From stdpp Require Import base gmap strings list.

(** C++ exceptions that can leave the modelled functions. *)
Inductive cpp_exception :=
  | out_of_range        (* std::string::substr with pos > size() *)
  | invalid_argument    (* std::stof without digits *)
  | serial_exception.   (* serial::Serial read/write/flush failure *)

Inductive outcome (A : Type) :=
  | Returns (a : A)
  | Throws (e : cpp_exception).
Arguments Returns {A} a.
Arguments Throws {A} e.

(** std::string::substr(pos, len): throws std::out_of_range when pos > size(),
    otherwise returns at most len characters from pos. *)
Definition substr (s : string) (pos len : nat) : outcome string :=
  if Nat.ltb (String.length s) pos then Throws out_of_range
  else Returns (String.substring pos len s).

Module SMC100C.
Local Open Scope string_scope.

(** enum class StatusType (SMC100C.h) *)
Inductive StatusType :=
  | Unknown | Error | Config | NoReference | Homing | Moving | Ready
  | Disabled | Jogging.

(** SMC100C::StatusLibrary (SMC100C.cpp, lines 109-152) *)
Definition StatusLibrary : list (string * StatusType) :=
  [("0A", NoReference); ("0B", NoReference); ("0C", NoReference);
   ("0D", NoReference); ("0E", NoReference); ("0F", NoReference);
   ("10", NoReference); ("11", NoReference);
   ("14", Config);
   ("1E", Homing); ("1F", Homing);
   ("28", Moving);
   ("32", Ready); ("33", Ready); ("34", Ready); ("35", Ready);
   ("3C", Disabled); ("3D", Disabled); ("3E", Disabled);
   ("46", Jogging); ("47", Jogging)].

(** The switch inside the loop of GetCurrentStatus. *)
Definition status_string (t : StatusType) : string :=
  match t with
  | Config => "Configuration"
  | NoReference => "No Reference"
  | Homing => "Homing"
  | Moving => "Moving"
  | Ready => "Ready"
  | Disabled => "Disabled"
  | Jogging => "Jogging"
  | Error => "Error"
  | Unknown => "Unknown"
  end.

(** The range-for loop over StatusLibrary: first entry whose Code equals the token. *)
Fixpoint find_status (code : string) (lib : list (string * StatusType)) : option StatusType :=
  match lib with
  | [] => None
  | (c, t) :: rest => if String.eqb code c then Some t else find_status code rest
  end.

(** Result of readString, as seen by SerialRead (SMC100C.h): a line ending in
    the final char, a timeout (return 0) or a full buffer (return -3). *)
Inductive ReadResult :=
  | RecvLine (s : string)
  | RecvTimeout
  | RecvBufferFull.

(** SMC100C::SerialRead *)
Definition SerialRead (r : ReadResult) : string :=
  match r with
  | RecvLine s => s
  | RecvTimeout => "Timeout"
  | RecvBufferFull => "Error"
  end.

(** The decoding part of SMC100C::GetCurrentStatus (SMC100C.cpp 418-454),
    applied to the string returned by SerialRead. *)
Definition decode_status (response : string) : outcome string :=
  match substr response 7 2 with
  | Throws e => Throws e
  | Returns statusCode =>
      match find_status statusCode StatusLibrary with
      | Some t => Returns (status_string t)
      | None => Returns ("Unknown Status Code: " ++ statusCode)
      end
  end.

(** SMC100C::GetCurrentStatus: flush, send TS?, read one line, decode.  The
    serial I/O either fails with an exception or yields a read result. *)
Definition GetCurrentStatus (io : outcome ReadResult) : outcome string :=
  match io with
  | Throws e => Throws e
  | Returns r => decode_status (SerialRead r)
  end.

(** enum class CommandType (SMC100C.h); the constructor order is the
    index used by SetCommand (static_cast<int>(Type)). *)
Module CommandType.
Inductive t :=
  | None
  | Acceleration
  | BacklashComp
  | HysterisisComp
  | DriverVoltage
  | KdLowPassFilterCutOff
  | FollowingErrorLim
  | FrictionComp
  | HomeSearchType
  | StageIdentifier
  | LeaveJoggingState
  | KeypadEnable
  | JerkTime
  | DerivativeGain
  | IntegralGain
  | ProportionalGain
  | VelocityFeedForward
  | Enable
  | HomeSearchVelocity
  | HomeSearch
  | HomeSearchTimeout
  | MoveAbs
  | MoveRel
  | MoveEstimate
  | Configure
  | Analog
  | TTLInputVal
  | Reset
  | RS485Adress
  | TTLOutputVal
  | ControlLoopState
  | NegativeSoftwareLim
  | PositiveSoftwareLim
  | StopMotion
  | EncoderIncrementVal
  | CommandErrorString
  | LastCommandErr
  | PositionAsSet
  | PositionReal
  | ErrorStatus
  | Velocity
  | BaseVelocity
  | ControllerRevisionInfo
  | AllConfigParam
  | ESPStageConfig.
End CommandType.

(** enum class CommandParameterType *)
Module CommandParameterType.
Inductive t := None | Int | Float.
End CommandParameterType.

(** enum class CommandGetSetType *)
Module CommandGetSetType.
Inductive t := None | Get | Set_ | GetSet | GetAlways.  (* Set is a keyword *)
End CommandGetSetType.

(** struct CommandStruct *)
Record CommandStruct := {
  Command : CommandType.t;
  CommandChar : string;
  SendType : CommandParameterType.t;
  GetSetType : CommandGetSetType.t }.

(** SMC100C::CommandLibrary (SMC100C.cpp, lines 60-106) *)
Definition CommandLibrary : list CommandStruct :=
  [{| Command := CommandType.None; CommandChar := "  "; SendType := CommandParameterType.None; GetSetType := CommandGetSetType.None |};
   {| Command := CommandType.Acceleration; CommandChar := "AC"; SendType := CommandParameterType.Float; GetSetType := CommandGetSetType.GetSet |};
   {| Command := CommandType.BacklashComp; CommandChar := "BA"; SendType := CommandParameterType.Float; GetSetType := CommandGetSetType.GetSet |};
   {| Command := CommandType.HysterisisComp; CommandChar := "BH"; SendType := CommandParameterType.Float; GetSetType := CommandGetSetType.GetSet |};
   {| Command := CommandType.DriverVoltage; CommandChar := "DV"; SendType := CommandParameterType.Float; GetSetType := CommandGetSetType.GetSet |};
   {| Command := CommandType.KdLowPassFilterCutOff; CommandChar := "FD"; SendType := CommandParameterType.Float; GetSetType := CommandGetSetType.GetSet |};
   {| Command := CommandType.FollowingErrorLim; CommandChar := "FE"; SendType := CommandParameterType.Float; GetSetType := CommandGetSetType.GetSet |};
   {| Command := CommandType.FrictionComp; CommandChar := "FF"; SendType := CommandParameterType.Float; GetSetType := CommandGetSetType.GetSet |};
   {| Command := CommandType.HomeSearchType; CommandChar := "HT"; SendType := CommandParameterType.Int; GetSetType := CommandGetSetType.GetSet |};
   {| Command := CommandType.StageIdentifier; CommandChar := "ID"; SendType := CommandParameterType.Float; GetSetType := CommandGetSetType.GetSet |};
   {| Command := CommandType.LeaveJoggingState; CommandChar := "JD"; SendType := CommandParameterType.None; GetSetType := CommandGetSetType.None |};
   {| Command := CommandType.KeypadEnable; CommandChar := "JM"; SendType := CommandParameterType.Int; GetSetType := CommandGetSetType.GetSet |};
   {| Command := CommandType.JerkTime; CommandChar := "JR"; SendType := CommandParameterType.Float; GetSetType := CommandGetSetType.GetSet |};
   {| Command := CommandType.DerivativeGain; CommandChar := "KD"; SendType := CommandParameterType.Float; GetSetType := CommandGetSetType.GetSet |};
   {| Command := CommandType.IntegralGain; CommandChar := "KI"; SendType := CommandParameterType.Float; GetSetType := CommandGetSetType.GetSet |};
   {| Command := CommandType.ProportionalGain; CommandChar := "KP"; SendType := CommandParameterType.Float; GetSetType := CommandGetSetType.GetSet |};
   {| Command := CommandType.VelocityFeedForward; CommandChar := "KV"; SendType := CommandParameterType.Float; GetSetType := CommandGetSetType.GetSet |};
   {| Command := CommandType.Enable; CommandChar := "MM"; SendType := CommandParameterType.Int; GetSetType := CommandGetSetType.None |};
   {| Command := CommandType.HomeSearchVelocity; CommandChar := "OH"; SendType := CommandParameterType.Float; GetSetType := CommandGetSetType.GetSet |};
   {| Command := CommandType.HomeSearch; CommandChar := "OR"; SendType := CommandParameterType.None; GetSetType := CommandGetSetType.None |};
   {| Command := CommandType.HomeSearchTimeout; CommandChar := "OT"; SendType := CommandParameterType.Float; GetSetType := CommandGetSetType.GetSet |};
   {| Command := CommandType.MoveAbs; CommandChar := "PA"; SendType := CommandParameterType.Float; GetSetType := CommandGetSetType.GetSet |};
   {| Command := CommandType.MoveRel; CommandChar := "PR"; SendType := CommandParameterType.Float; GetSetType := CommandGetSetType.GetSet |};
   {| Command := CommandType.MoveEstimate; CommandChar := "PT"; SendType := CommandParameterType.Float; GetSetType := CommandGetSetType.GetAlways |};
   {| Command := CommandType.Configure; CommandChar := "PW"; SendType := CommandParameterType.Int; GetSetType := CommandGetSetType.GetSet |};
   {| Command := CommandType.Analog; CommandChar := "RA"; SendType := CommandParameterType.None; GetSetType := CommandGetSetType.GetAlways |};
   {| Command := CommandType.TTLInputVal; CommandChar := "RB"; SendType := CommandParameterType.None; GetSetType := CommandGetSetType.GetAlways |};
   {| Command := CommandType.Reset; CommandChar := "RS"; SendType := CommandParameterType.None; GetSetType := CommandGetSetType.None |};
   {| Command := CommandType.RS485Adress; CommandChar := "SA"; SendType := CommandParameterType.Int; GetSetType := CommandGetSetType.GetSet |};
   {| Command := CommandType.TTLOutputVal; CommandChar := "SB"; SendType := CommandParameterType.Int; GetSetType := CommandGetSetType.GetSet |};
   {| Command := CommandType.ControlLoopState; CommandChar := "SC"; SendType := CommandParameterType.Int; GetSetType := CommandGetSetType.GetSet |};
   {| Command := CommandType.NegativeSoftwareLim; CommandChar := "SL"; SendType := CommandParameterType.Float; GetSetType := CommandGetSetType.GetSet |};
   {| Command := CommandType.PositiveSoftwareLim; CommandChar := "SR"; SendType := CommandParameterType.Float; GetSetType := CommandGetSetType.GetSet |};
   {| Command := CommandType.StopMotion; CommandChar := "ST"; SendType := CommandParameterType.None; GetSetType := CommandGetSetType.None |};
   {| Command := CommandType.EncoderIncrementVal; CommandChar := "SU"; SendType := CommandParameterType.Float; GetSetType := CommandGetSetType.GetSet |};
   {| Command := CommandType.CommandErrorString; CommandChar := "TB"; SendType := CommandParameterType.None; GetSetType := CommandGetSetType.GetAlways |};
   {| Command := CommandType.LastCommandErr; CommandChar := "TE"; SendType := CommandParameterType.None; GetSetType := CommandGetSetType.GetAlways |};
   {| Command := CommandType.PositionAsSet; CommandChar := "TH"; SendType := CommandParameterType.None; GetSetType := CommandGetSetType.GetAlways |};
   {| Command := CommandType.PositionReal; CommandChar := "TP"; SendType := CommandParameterType.None; GetSetType := CommandGetSetType.GetAlways |};
   {| Command := CommandType.ErrorStatus; CommandChar := "TS"; SendType := CommandParameterType.None; GetSetType := CommandGetSetType.GetAlways |};
   {| Command := CommandType.Velocity; CommandChar := "VA"; SendType := CommandParameterType.Float; GetSetType := CommandGetSetType.GetSet |};
   {| Command := CommandType.BaseVelocity; CommandChar := "Vb"; SendType := CommandParameterType.Float; GetSetType := CommandGetSetType.GetSet |};
   {| Command := CommandType.ControllerRevisionInfo; CommandChar := "VE"; SendType := CommandParameterType.None; GetSetType := CommandGetSetType.GetAlways |};
   {| Command := CommandType.AllConfigParam; CommandChar := "ZT"; SendType := CommandParameterType.None; GetSetType := CommandGetSetType.GetAlways |};
   {| Command := CommandType.ESPStageConfig; CommandChar := "ZX"; SendType := CommandParameterType.None; GetSetType := CommandGetSetType.GetSet |}].

(** static_cast<int>(Type) *)
Definition command_index (c : CommandType.t) : nat :=
  match c with
  | CommandType.None => 0
  | CommandType.Acceleration => 1
  | CommandType.BacklashComp => 2
  | CommandType.HysterisisComp => 3
  | CommandType.DriverVoltage => 4
  | CommandType.KdLowPassFilterCutOff => 5
  | CommandType.FollowingErrorLim => 6
  | CommandType.FrictionComp => 7
  | CommandType.HomeSearchType => 8
  | CommandType.StageIdentifier => 9
  | CommandType.LeaveJoggingState => 10
  | CommandType.KeypadEnable => 11
  | CommandType.JerkTime => 12
  | CommandType.DerivativeGain => 13
  | CommandType.IntegralGain => 14
  | CommandType.ProportionalGain => 15
  | CommandType.VelocityFeedForward => 16
  | CommandType.Enable => 17
  | CommandType.HomeSearchVelocity => 18
  | CommandType.HomeSearch => 19
  | CommandType.HomeSearchTimeout => 20
  | CommandType.MoveAbs => 21
  | CommandType.MoveRel => 22
  | CommandType.MoveEstimate => 23
  | CommandType.Configure => 24
  | CommandType.Analog => 25
  | CommandType.TTLInputVal => 26
  | CommandType.Reset => 27
  | CommandType.RS485Adress => 28
  | CommandType.TTLOutputVal => 29
  | CommandType.ControlLoopState => 30
  | CommandType.NegativeSoftwareLim => 31
  | CommandType.PositiveSoftwareLim => 32
  | CommandType.StopMotion => 33
  | CommandType.EncoderIncrementVal => 34
  | CommandType.CommandErrorString => 35
  | CommandType.LastCommandErr => 36
  | CommandType.PositionAsSet => 37
  | CommandType.PositionReal => 38
  | CommandType.ErrorStatus => 39
  | CommandType.Velocity => 40
  | CommandType.BaseVelocity => 41
  | CommandType.ControllerRevisionInfo => 42
  | CommandType.AllConfigParam => 43
  | CommandType.ESPStageConfig => 44
  end.

(** struct CommandEntry *)
Record CommandEntry (float : Type) := {
  EntryCommand : CommandStruct;
  GetOrSet : CommandGetSetType.t;
  Parameter_ : float }.  (* Parameter is a keyword *)
Arguments EntryCommand {float}.
Arguments GetOrSet {float}.
Arguments Parameter_ {float}.

(** static const char* ControllerAdress = "1"; *)
Definition ControllerAdress : string := "1".

Section Encoding.
(** The float parameter and the two formatters SendCurrentCommand uses:
    std::to_string(static_cast<int>(p)) and std::to_string(p). *)
Variable float : Type.
Variable to_string_int_cast : float -> string.
Variable to_string_float : float -> string.

(** SMC100C::SetCommand: CommandToPrint.Command = &CommandLibrary[static_cast<int>(Type)] *)
Definition SetCommand (Type_ : CommandType.t) (Param : float)
    (GetOrSet_ : CommandGetSetType.t) : CommandEntry float :=
  {| EntryCommand := nth (command_index Type_) CommandLibrary
                       (List.hd {| Command := CommandType.None; CommandChar := "  ";
                                   SendType := CommandParameterType.None;
                                   GetSetType := CommandGetSetType.None |} CommandLibrary);
     GetOrSet := GetOrSet_;
     Parameter_ := Param |}.

(** SMC100C::SendCurrentCommand.  [addr_written] is whether
    my_serial.write(ControllerAdress) returned strlen(ControllerAdress).  The
    result is the returned bool and the chunks handed to my_serial.write, in order. *)
Definition SendCurrentCommand (addr_written : bool) (e : CommandEntry float)
    : bool * list string :=
  if negb addr_written then (false, [ControllerAdress])
  else
    let commandString := CommandChar (EntryCommand e) in
    let suffix :=
      match GetOrSet e with
      | CommandGetSetType.Get => "?"
      | _ =>
          match SendType (EntryCommand e) with
          | CommandParameterType.Int => to_string_int_cast (Parameter_ e)
          | CommandParameterType.Float => to_string_float (Parameter_ e)
          | CommandParameterType.None => ""
          end
      end in
    (true, [ControllerAdress; commandString; suffix; String.String "013" (String.String "010" "")]).

(** The wire line: the concatenation of the written chunks. *)
Definition wire_line (chunks : list string) : string :=
  List.fold_right String.append "" chunks.

End Encoding.

End SMC100C.

(** * moveStage (individualCommands.cpp, lines 448-484) *)
Module MoveStage.
Import SMC100C.
Local Open Scope list_scope.

(** The controller's answer to each call moveStage makes, in call order:
    a call either throws, or completes; for GetCurrentStatus a completed call
    also yields what readString received.  RelativeMove only writes, so its
    read result is ignored. *)
Definition reply := outcome ReadResult.

(** What moveStage does, as observed on the controller.  Distances are kept
    as Z: the code only negates dlpPumpingAction and narrows stepSize. *)
Inductive StageEv :=
  | EvRelativeMove (d : Z)        (* controller.RelativeMove(d) returned *)
  | EvStatus (s : string)         (* controller.GetCurrentStatus() returned s *)
  | EvException (e : cpp_exception). (* caught: "Exception caught ... Retrying..." *)

(** The lambda moveAndCheckReady(moveStep): the outer while(true) with its
    try/catch ([mcr_move]) and the inner polling loop ([mcr_poll]).  The
    result is the event trace and, when the lambda returned, the replies
    left; [None] means it was still looping when the replies ran out. *)
Fixpoint mcr_move (moveStep : Z) (rs : list reply) : list StageEv * option (list reply) :=
  match rs with
  | [] => ([], None)
  | r :: rs' =>
      match r with
      | Throws e =>
          let '(tr, rest) := mcr_move moveStep rs' in (EvException e :: tr, rest)
      | Returns _ =>
          let '(tr, rest) := mcr_poll moveStep rs' in (EvRelativeMove moveStep :: tr, rest)
      end
  end
with mcr_poll (moveStep : Z) (rs : list reply) : list StageEv * option (list reply) :=
  match rs with
  | [] => ([], None)
  | r :: rs' =>
      match GetCurrentStatus r with
      | Throws e =>
          let '(tr, rest) := mcr_move moveStep rs' in (EvException e :: tr, rest)
      | Returns s =>
          if String.eqb s "Ready"%string then ([EvStatus s], Some rs')
          else let '(tr, rest) := mcr_poll moveStep rs' in (EvStatus s :: tr, rest)
      end
  end.

(** Sequencing of two sub-moves. *)
Definition then_move (first : list StageEv * option (list reply))
    (k : list reply -> list StageEv * option (list reply)) : list StageEv * option (list reply) :=
  match first with
  | (tr, None) => (tr, None)
  | (tr, Some rs) => let '(tr', rest) := k rs in (tr ++ tr', rest)
  end.

(** moveStage(controller, stepSize, isClip, dlpPumpingAction) *)
Definition moveStage (stepSize : Z) (isClip : bool) (dlpPumpingAction : Z)
    (rs : list reply) : list StageEv * option (list reply) :=
  if negb isClip then
    then_move (mcr_move (-1 * dlpPumpingAction) rs) (fun rs1 =>
    then_move (mcr_move stepSize rs1) (fun rs2 =>
    mcr_move dlpPumpingAction rs2))
  else mcr_move stepSize rs.

(** The relative moves issued, in order. *)
Fixpoint moves (tr : list StageEv) : list Z :=
  match tr with
  | [] => []
  | EvRelativeMove d :: tr' => d :: moves tr'
  | _ :: tr' => moves tr'
  end.

(** A status event other than "Ready". *)
Definition not_ready (ev : StageEv) : Prop :=
  exists s, ev = EvStatus s /\ s <> "Ready"%string.

(** The traces of one moveAndCheckReady(d) call that returned: the move,
    some non-Ready polls and a Ready poll, possibly preceded by attempts
    that an exception cut short (each of which is retried from the move). *)
Inductive mcr_trace (d : Z) : list StageEv -> Prop :=
  | mcr_done polls :
      Forall not_ready polls ->
      mcr_trace d (EvRelativeMove d :: polls ++ [EvStatus "Ready"%string])
  | mcr_move_failed e tr :
      mcr_trace d tr -> mcr_trace d (EvException e :: tr)
  | mcr_poll_failed polls e tr :
      Forall not_ready polls -> mcr_trace d tr ->
      mcr_trace d (EvRelativeMove d :: polls ++ EvException e :: tr).

End MoveStage.

(** * waitForPosition and checkTimeout (individualCommands.cpp, lines 504-565) *)
Module WaitForPosition.
Local Open Scope list_scope.

(** pos.erase(remove(..., '\n')) followed by pos.erase(remove(..., '\r')) *)
Fixpoint remove_crlf (s : string) : string :=
  match s with
  | EmptyString => EmptyString
  | String c s' =>
      if Ascii.eqb c "010"%char || Ascii.eqb c "013"%char then remove_crlf s'
      else String c (remove_crlf s')
  end.

(** checkTimeout(startTime, timeout): duration_cast<seconds>(now - startTime) >= timeout,
    with the elapsed time in milliseconds (duration_cast truncates). *)
Definition checkTimeout (elapsed_ms timeout_s : nat) : bool :=
  Nat.leb timeout_s (elapsed_ms / 1000).

Section Loop.
(** The float currentPosition, std::stof (None when it throws) and the test
    abs(currentPosition - targetPosition) < tolerance. *)
Variable Pos : Type.
Variable stof : string -> option Pos.
Variable within_tolerance : Pos -> bool.
Variable targetPosition : Pos.
Variable timeout_s : nat.

(** What the controller does during one iteration of the loop: the result of
    controller.GetPosition(), the result of controller.AbsoluteMove(target),
    and the milliseconds spent inside these two calls. *)
Record Iter := {
  get_position : outcome string;
  absolute_move : outcome unit;
  io_ms : nat }.

Inductive WEv :=
  | EvGetPosition
  | EvAbsoluteMove (p : Pos).

Inductive WEnd :=
  | WReturned (positionMatched : bool)
  | WThrew (e : cpp_exception)
  | WStillLooping.   (* the iterations supplied ran out *)

(** The try block: returns whether the position matched and the time at its end. *)
Definition query_position (it : Iter) (t : nat) : bool * nat :=
  match get_position it with
  | Throws _ => (false, t)                       (* caught, no second sleep *)
  | Returns pos =>
      let pos' := remove_crlf pos in
      if Nat.leb 9 (String.length pos') then
        match stof (String.substring 3 6 pos') with
        | Some currentPosition => (within_tolerance currentPosition, t + 50)
        | None => (false, t + 50)                (* stof threw, caught *)
        end
      else (false, t + 50)
  end.

(** while (!positionMatched) { sleep 50; try {...} catch {...};
    controller.AbsoluteMove(target); if (checkTimeout(...)) break; }
    [elapsed] is the time since startTime, in milliseconds. *)
Fixpoint loop (iters : list Iter) (elapsed : nat) : list WEv * WEnd :=
  match iters with
  | [] => ([], WStillLooping)
  | it :: rest =>
      let '(positionMatched, t) := query_position it (elapsed + 50) in
      let t' := t + io_ms it in
      match absolute_move it with
      | Throws e => ([EvGetPosition], WThrew e)
      | Returns _ =>
          if checkTimeout t' timeout_s then
            ([EvGetPosition; EvAbsoluteMove targetPosition], WReturned positionMatched)
          else if positionMatched then
            ([EvGetPosition; EvAbsoluteMove targetPosition], WReturned true)
          else
            let '(tr, e) := loop rest t' in
            (EvGetPosition :: EvAbsoluteMove targetPosition :: tr, e)
      end
  end.

Definition waitForPosition (iters : list Iter) : list WEv * WEnd := loop iters 0.

(** Duration of one iteration, in milliseconds. *)
Definition iter_ms (it : Iter) : nat := snd (query_position it 50) + io_ms it.

(** The reading of one iteration is within tolerance. *)
Definition iter_matches (it : Iter) : bool := fst (query_position it 0).

End Loop.
End WaitForPosition.

(** * readSettingsOrdered (individualCommands.cpp, lines 1669-1707) *)
Module Settings.
Local Open Scope Z_scope.
Local Open Scope list_scope.

(** struct LayerSettings (individualCommands.h, lines 36-51) *)
Record LayerSettings := mkLayerSettings {
  intensity : Z;
  exposureTime : Z;
  darkTime : Z }.

(** std::tie(intensity, exposureTime, darkTime): operator< compares these
    triples lexicographically and operator== compares them componentwise, so
    two settings are the same std::map key exactly when their triples agree. *)
Definition tie (s : LayerSettings) : Z * Z * Z := (intensity s, exposureTime s, darkTime s).

Definition LayerSettings_eqb (a b : LayerSettings) : bool :=
  Z.eqb (intensity a) (intensity b) && Z.eqb (exposureTime a) (exposureTime b)
  && Z.eqb (darkTime a) (darkTime b).

(** ** std::getline on an std::ifstream *)

(** Splits at '\n'; a final segment with no character is not a line (getline
    fails on it). *)
Fixpoint split_nl (s : string) : list string :=
  match s with
  | EmptyString => [EmptyString]
  | String c s' =>
      if Ascii.eqb c "010"%char then EmptyString :: split_nl s'
      else match split_nl s' with
           | [] => [String c EmptyString]
           | l :: ls => String c l :: ls
           end
  end.

Definition getlines (contents : string) : list string :=
  let segs := split_nl contents in
  match List.rev segs with
  | EmptyString :: rest => List.rev rest
  | _ => segs
  end.

(** ** std::istringstream extraction *)

(** The stream: the characters not yet consumed and whether good() holds
    (false once failbit or eofbit is set). *)
Record istream := { ibuf : string; igood : bool }.

(** isspace in the "C" locale *)
Definition is_space (c : ascii) : bool :=
  Ascii.eqb c " "%char || Ascii.eqb c "009"%char || Ascii.eqb c "010"%char
  || Ascii.eqb c "011"%char || Ascii.eqb c "012"%char || Ascii.eqb c "013"%char.

Fixpoint skip_ws (s : string) : string :=
  match s with
  | String c s' => if is_space c then skip_ws s' else s
  | EmptyString => EmptyString
  end.

Definition digit_value (c : ascii) : option Z :=
  let n := Z.of_nat (Ascii.nat_of_ascii c) in
  if (48 <=? n) && (n <=? 57) then Some (n - 48) else None.

(** The longest digit prefix: its value, its length and the rest. *)
Fixpoint take_digits (s : string) (acc : Z) (k : nat) : Z * nat * string :=
  match s with
  | String c s' =>
      match digit_value c with
      | Some d => take_digits s' (10 * acc + d) (S k)
      | None => (acc, k, s)
      end
  | EmptyString => (acc, k, s)
  end.

Definition INT_MAX : Z := 2147483647.
Definition INT_MIN : Z := -2147483648.

(** operator>>(int&): a failed sentry (stream not good, or end of input while
    skipping white space) leaves the variable untouched; num_get without any
    digit stores 0 and sets failbit; an out-of-range value stores INT_MAX or
    INT_MIN and sets failbit; reaching the end of input sets eofbit. *)
Definition extract_int (st : istream) (old : Z) : istream * Z :=
  if negb (igood st) then (st, old)
  else
    match skip_ws (ibuf st) with
    | EmptyString => ({| ibuf := EmptyString; igood := false |}, old)
    | String c s' as s =>
        let '(sign, body) :=
          if Ascii.eqb c "-"%char then (-1, s')
          else if Ascii.eqb c "+"%char then (1, s') else (1, s) in
        let '(v, k, rest) := take_digits body 0 0 in
        let at_end := match rest with EmptyString => true | _ => false end in
        if Nat.eqb k 0 then ({| ibuf := rest; igood := false |}, 0)
        else
          let z := sign * v in
          if z >? INT_MAX then ({| ibuf := rest; igood := false |}, INT_MAX)
          else if z <? INT_MIN then ({| ibuf := rest; igood := false |}, INT_MIN)
          else ({| ibuf := rest; igood := negb at_end |}, z)
    end.

(** operator>>(char&): skips white space and takes one character. *)
Definition extract_char (st : istream) (old : ascii) : istream * ascii :=
  if negb (igood st) then (st, old)
  else
    match skip_ws (ibuf st) with
    | EmptyString => ({| ibuf := EmptyString; igood := false |}, old)
    | String c s' => ({| ibuf := s'; igood := true |}, c)
    end.

(** iss >> layer >> delim >> intensity >> delim >> exposureTime >> delim >> darkTime;
    LayerSettings currentSetting(intensity, exposureTime, darkTime);
    [uninit] holds the indeterminate values the four uninitialised ints start with. *)
Definition parse_row (uninit : Z * Z * Z * Z) (line : string) : LayerSettings :=
  let '(layer0, intensity0, exposureTime0, darkTime0) := uninit in
  let st0 := {| ibuf := line; igood := true |} in
  let '(st1, _) := extract_int st0 layer0 in
  let '(st2, _) := extract_char st1 "000"%char in
  let '(st3, i) := extract_int st2 intensity0 in
  let '(st4, _) := extract_char st3 "000"%char in
  let '(st5, e) := extract_int st4 exposureTime0 in
  let '(st6, _) := extract_char st5 "000"%char in
  let '(_, d) := extract_int st6 darkTime0 in
  mkLayerSettings i e d.

(** The range-for over orderedSettings that increments the first equal entry. *)
Fixpoint increment_first (cur : LayerSettings) (v : list (LayerSettings * Z))
    : list (LayerSettings * Z) :=
  match v with
  | [] => []
  | (s, n) :: v' =>
      if LayerSettings_eqb s cur then (s, n + 1) :: v'
      else (s, n) :: increment_first cur v'
  end.

(** The body of the while loop for one row.  settingsCount, a
    std::map<LayerSettings, int>, is a gmap keyed by [tie]. *)
Definition step_row (cur : LayerSettings)
    (acc : list (LayerSettings * Z) * gmap (Z * Z * Z) Z)
    : list (LayerSettings * Z) * gmap (Z * Z * Z) Z :=
  let '(orderedSettings, settingsCount) := acc in
  let '(orderedSettings', settingsCount') :=
    match settingsCount !! tie cur with
    | None => (orderedSettings ++ [(cur, 1)], settingsCount)
    | Some c => (increment_first cur orderedSettings, <[tie cur := c + 1]> settingsCount)
    end in
  (* settingsCount[currentSetting]++ : operator[] inserts 0 when absent *)
  let c' := default 0 (settingsCount' !! tie cur) in
  (orderedSettings', <[tie cur := c' + 1]> settingsCount').

Section Loader.
(** The indeterminate initial values of the four ints on the n-th data row. *)
Variable uninit : nat -> Z * Z * Z * Z.

Fixpoint read_rows (n : nat) (rows : list string)
    (acc : list (LayerSettings * Z) * gmap (Z * Z * Z) Z)
    : list (LayerSettings * Z) * gmap (Z * Z * Z) Z :=
  match rows with
  | [] => acc
  | line :: rows' => read_rows (S n) rows' (step_row (parse_row (uninit n) line) acc)
  end.

(** The data rows: every line after the header line. *)
Definition data_rows (contents : string) : list string :=
  match getlines contents with
  | [] => []
  | _ :: rows => rows
  end.

(** readSettingsOrdered(filePath); [file] is the file's contents, or [None]
    when the std::ifstream cannot be opened (every getline then fails). *)
Definition readSettingsOrdered (file : option string) : list (LayerSettings * Z) :=
  match file with
  | None => []
  | Some contents => fst (read_rows 0 (data_rows contents) ([], ∅))
  end.

End Loader.
End Settings.

(** * The frame loops of RunFull (lines 824-1121) and RunFullDynamic (lines 1300-1651) *)
Module PrintLoop.
Import Settings.
Local Open Scope Z_scope.
Local Open Scope list_scope.

(** What one iteration of a frame loop reads from its surroundings. *)
Record Tick := {
  closed : bool;      (* window.pollEvent delivered sf::Event::Closed *)
  abort : bool;       (* getAbortFlag() *)
  now : Z;            (* high_resolution_clock::now(), in milliseconds *)
  move_ready : bool } (* stageThread.wait_for(0ms) == std::future_status::ready *).

(** The loop variables of RunFull and RunFullDynamic that decide what is
    presented and when the stage moves.  The flags filenameLogged and
    inLightPhase only select log lines and are left out. *)
Record St := {
  displayImage : bool;
  imageDisplayCount : Z;
  currentLayer : Z;
  inInitialPhase : bool;
  currentImageIndex : nat;
  currentTextureIndex : nat;
  nextImageLoaded : bool;
  isNextImageLoading : bool;
  allImagesShown : bool;
  isStageThreadRunning : bool;
  darkTimeStart : Z }.

(** Observable actions of a run. *)
Inductive Ev :=
  | EvPresentImage (texture : nat)       (* draw sprite of textures[i]; window.display() *)
  | EvPresentBlank                       (* window.clear(); window.display() *)
  | EvGetPosition                        (* controller.GetPosition() *)
  | EvLaunchMove                         (* std::async(moveStage, ...) *)
  | EvLoadTexture (texture image : nat)  (* textures[i].loadFromFile(imagePaths[k]) *)
  | EvJoinMove                           (* stageThread.get() *)
  | EvDarkStart (t0 : Z)                 (* darkTimeStart = now() *)
  | EvSwap (t1 : Z)                      (* gate opened at time [t1]: buffers swapped, index advanced *)
  | EvSetCurrent (v : Z)                 (* SetCurrent(0, v) on the light engine *)
  | EvApplySettings (s : LayerSettings)  (* "Applying settings: ..." *)
  | EvPrintedLayer (s : LayerSettings)   (* "Printed layer with Intensity: ..." *)
  | EvLogAbort                           (* "Run Full aborted." *)
  | EvHome                               (* controller.Home() *)
  | EvClose                              (* controller.SMC100CClose() *)
  | EvCloseWindow                        (* window.close() *)
  | EvFutureDestroyed                    (* ~future of std::async: waits for the task *)
  | EvControllerDestroyed.               (* ~SMC100C at the end of the function's scope *)

Definition set_display (s : St) (b : bool) : St :=
  {| displayImage := b; imageDisplayCount := imageDisplayCount s; currentLayer := currentLayer s;
     inInitialPhase := inInitialPhase s; currentImageIndex := currentImageIndex s;
     currentTextureIndex := currentTextureIndex s; nextImageLoaded := nextImageLoaded s;
     isNextImageLoading := isNextImageLoading s; allImagesShown := allImagesShown s;
     isStageThreadRunning := isStageThreadRunning s; darkTimeStart := darkTimeStart s |}.

(** The light branch after the abort check, for a threshold [maxCount]:
    present the image, count the frame and, at the threshold, end the light
    phase (query the position, start the dark timer).  [initialLayers] is
    used by RunFull to leave the initial phase; RunFullDynamic keeps
    inInitialPhase unchanged, which [None] expresses. *)
Definition light_branch (maxCount : Z) (initialLayers : option Z) (t : Tick) (s : St)
    : St * list Ev :=
  let cnt := imageDisplayCount s + 1 in
  if maxCount <=? cnt then
    let layer := currentLayer s + 1 in
    ({| displayImage := false; imageDisplayCount := 0; currentLayer := layer;
        inInitialPhase :=
          match initialLayers with
          | Some il => if il <=? layer then false else inInitialPhase s
          | None => inInitialPhase s
          end;
        currentImageIndex := currentImageIndex s;
        currentTextureIndex := currentTextureIndex s; nextImageLoaded := nextImageLoaded s;
        isNextImageLoading := isNextImageLoading s; allImagesShown := allImagesShown s;
        isStageThreadRunning := isStageThreadRunning s; darkTimeStart := now t |},
     [EvPresentImage (currentTextureIndex s); EvGetPosition; EvDarkStart (now t)])
  else
    ({| displayImage := true; imageDisplayCount := cnt; currentLayer := currentLayer s;
        inInitialPhase := inInitialPhase s; currentImageIndex := currentImageIndex s;
        currentTextureIndex := currentTextureIndex s; nextImageLoaded := nextImageLoaded s;
        isNextImageLoading := isNextImageLoading s; allImagesShown := allImagesShown s;
        isStageThreadRunning := isStageThreadRunning s; darkTimeStart := darkTimeStart s |},
     [EvPresentImage (currentTextureIndex s)]).

(** The dark branch, for a dark duration [darkDuration] and [nimages] image
    paths.  The bool is whether the gate opened (buffers swapped). *)
Definition dark_branch (darkDuration : Z) (nimages : nat) (t : Tick) (s : St)
    : St * list Ev * bool :=
  (* launch the stage move *)
  let launch := negb (isStageThreadRunning s) && negb (nextImageLoaded s) in
  let running1 := isStageThreadRunning s || launch in
  (* preload the next image, or note that there is none *)
  let has_next := Nat.ltb (S (currentImageIndex s)) nimages in
  let load := has_next && negb (isNextImageLoading s) in
  let loading1 := isNextImageLoading s || load in
  let loaded1 := nextImageLoaded s || load in
  let shown1 := allImagesShown s || (negb has_next && negb (isNextImageLoading s)) in
  (* poll the stage move *)
  let join := running1 && move_ready t in
  let running2 := running1 && negb join in
  let evs := [EvPresentBlank]
             ++ (if launch then [EvLaunchMove] else [])
             ++ (if load then [EvLoadTexture (1 - currentTextureIndex s) (S (currentImageIndex s))] else [])
             ++ (if join then [EvJoinMove] else []) in
  (* the gate *)
  if (darkDuration <? now t - darkTimeStart s) && loaded1 && negb running2 then
    ({| displayImage := true; imageDisplayCount := imageDisplayCount s; currentLayer := currentLayer s;
        inInitialPhase := inInitialPhase s; currentImageIndex := S (currentImageIndex s);
        currentTextureIndex := 1 - currentTextureIndex s; nextImageLoaded := false;
        isNextImageLoading := false; allImagesShown := shown1;
        isStageThreadRunning := running2; darkTimeStart := darkTimeStart s |},
     evs ++ [EvSwap (now t); EvPresentBlank; EvPresentBlank], true)
  else
    ({| displayImage := false; imageDisplayCount := imageDisplayCount s; currentLayer := currentLayer s;
        inInitialPhase := inInitialPhase s; currentImageIndex := currentImageIndex s;
        currentTextureIndex := currentTextureIndex s; nextImageLoaded := loaded1;
        isNextImageLoading := loading1; allImagesShown := shown1;
        isStageThreadRunning := running2; darkTimeStart := darkTimeStart s |},
     evs, false).

(** Result of one loop iteration. *)
Inductive IterRes :=
  | IAbort (evs : list Ev)                   (* return from the abort check *)
  | IBreak (s : St) (evs : list Ev)          (* "All images shown": SetCurrent(0,0); break *)
  | ICont (s : St) (evs : list Ev) (swapped : bool).

(** The check at the bottom of each iteration. *)
Definition finish_iter (s : St) (evs : list Ev) (swapped : bool) : IterRes :=
  if allImagesShown s && negb (displayImage s) then IBreak s (evs ++ [EvSetCurrent 0])
  else ICont s evs swapped.

(** Leaving the function's scope: the std::future destructor waits for a
    task still running, then the controller is destroyed. *)
Definition scope_exit (s : St) : list Ev :=
  (if isStageThreadRunning s then [EvFutureDestroyed] else []) ++ [EvControllerDestroyed].

(** The code after the loops: join, final position, home, close. *)
Definition shutdown (s : St) : list Ev :=
  (if isStageThreadRunning s then [EvJoinMove] else [])
  ++ [EvGetPosition; EvHome; EvClose; EvCloseWindow; EvControllerDestroyed].

(** State when the loop starts. *)
Definition init_state : St :=
  {| displayImage := true; imageDisplayCount := 0; currentLayer := 0; inInitialPhase := true;
     currentImageIndex := 0; currentTextureIndex := 0; nextImageLoaded := false;
     isNextImageLoading := false; allImagesShown := false; isStageThreadRunning := false;
     darkTimeStart := 0 |}.

Inductive RunEnd :=
  | RAborted
  | RFinished
  | RPending (s : St).   (* the ticks supplied ran out *)

Inductive LoopEnd :=
  | LAborted (s : St)
  | LExited (s : St)
  | LPending (s : St).

(** ** RunFull *)
Record FullParams := {
  nimages : nat;                 (* imagePaths.size() *)
  maxImageDisplayCount : Z;
  mindarktime : Z;
  initialExposureCounter : Z;
  initialLayers : Z }.

(** One iteration of while (window.isOpen()) { ... } in RunFull. *)
Definition full_iter (p : FullParams) (t : Tick) (s : St) : IterRes :=
  let evs0 := if closed t then [EvCloseWindow] else [] in
  if displayImage s then
    if abort t then IAbort (evs0 ++ [EvLogAbort])
    else
      let maxCount := if inInitialPhase s then initialExposureCounter p
                      else maxImageDisplayCount p in
      let '(s', evs) := light_branch maxCount (Some (initialLayers p)) t s in
      finish_iter s' (evs0 ++ evs) false
  else
    let '(s', evs, sw) := dark_branch (mindarktime p) (nimages p) t s in
    finish_iter s' (evs0 ++ evs) sw.

Fixpoint full_loop (p : FullParams) (ticks : list Tick) (isOpen : bool) (s : St)
    : list Ev * LoopEnd :=
  if negb isOpen then ([], LExited s)
  else
    match ticks with
    | [] => ([], LPending s)
    | t :: ts =>
        match full_iter p t s with
        | IAbort evs => (evs, LAborted s)
        | IBreak s' evs => (evs, LExited s')
        | ICont s' evs _ =>
            let '(tr, e) := full_loop p ts (negb (closed t)) s' in (evs ++ tr, e)
        end
    end.

(** RunFull from the start of its frame loop (window open, first image preloaded). *)
Definition RunFull (p : FullParams) (ticks : list Tick) : list Ev * RunEnd :=
  let '(tr, e) := full_loop p ticks true init_state in
  match e with
  | LAborted s => (tr ++ scope_exit s, RAborted)
  | LExited s => (tr ++ shutdown s, RFinished)
  | LPending s => (tr, RPending s)
  end.

(** ** RunFullDynamic *)

(** One iteration of while (layercounter <= layerCount) { ... }.  The Closed
    event is only polled by the enclosing while (window.isOpen()). *)
Definition dyn_iter (nimages_ : nat) (setting : LayerSettings) (t : Tick) (s : St) : IterRes :=
  if displayImage s then
    if abort t then IAbort [EvLogAbort]
    else
      let '(s', evs) := light_branch (exposureTime setting) None t s in
      finish_iter s' evs false
  else
    let '(s', evs, sw) := dark_branch (darkTime setting) nimages_ t s in
    finish_iter s' (evs ++ if sw then [EvPrintedLayer setting] else []) sw.

Inductive GroupEnd :=
  | GAborted (s : St)
  | GDone (s : St) (rest : list Tick)
  | GPending (s : St).

(** The inner while loop of one group; [layercounter] counts the completed
    dark-to-light transitions. *)
Fixpoint dyn_group (nimages_ : nat) (setting : LayerSettings) (layerCount : Z)
    (ticks : list Tick) (layercounter : Z) (s : St) : list Ev * GroupEnd :=
  if layercounter <=? layerCount then
    match ticks with
    | [] => ([], GPending s)
    | t :: ts =>
        match dyn_iter nimages_ setting t s with
        | IAbort evs => (evs, GAborted s)
        | IBreak s' evs => (evs, GDone s' ts)
        | ICont s' evs sw =>
            let '(tr, e) := dyn_group nimages_ setting layerCount ts
                              (if sw then layercounter + 1 else layercounter) s' in
            (evs ++ tr, e)
        end
    end
  else ([], GDone s ticks).

(** for (const auto& setting : orderedSettings) { apply; layercounter = 0; while ... } *)
Fixpoint dyn_groups (nimages_ : nat) (orderedSettings : list (LayerSettings * Z))
    (ticks : list Tick) (s : St) : list Ev * GroupEnd :=
  match orderedSettings with
  | [] => ([], GDone s ticks)
  | (setting, layerCount) :: gs =>
      (* SetCurrent(0, static_cast<U8>(currentSetting.intensity)): the low 8 bits *)
      let applied := [EvApplySettings setting; EvSetCurrent (Z.land (intensity setting) 255)] in
      match dyn_group nimages_ setting layerCount ticks 0 s with
      | (tr, GDone s' ts) =>
          let '(tr', e) := dyn_groups nimages_ gs ts s' in (applied ++ tr ++ tr', e)
      | (tr, e) => (applied ++ tr, e)
      end
  end.

(** RunFullDynamic from the start of its frame loop: the body of
    while (window.isOpen()) runs once (it ends in break), then the shutdown. *)
Definition RunFullDynamic (nimages_ : nat) (orderedSettings : list (LayerSettings * Z))
    (ticks : list Tick) : list Ev * RunEnd :=
  match dyn_groups nimages_ orderedSettings ticks init_state with
  | (tr, GAborted s) => (tr ++ scope_exit s, RAborted)
  | (tr, GDone s _) => (tr ++ shutdown s, RFinished)
  | (tr, GPending s) => (tr, RPending s)
  end.

End PrintLoop.

(** * readString and SerialRead on the bytes of the port (SMC100C.cpp,
    lines 648-680; SMC100C.h, lines 143-161) *)
Module ReadString.
Import SMC100C.
Local Open Scope list_scope.

(** One pass of while (nbBytes < maxNbBytes): the milliseconds elapsed since
    startTime when the time is read, and the bytes that reached the port
    since the previous pass. *)
Record RIter := {
  elapsed_ms : nat;
  arrived : list ascii }.

(** How readString ended: the bytes copied into receivedString (before the
    '\0' it writes), the bytes it read from the port but did not copy, and the
    bytes left in the port. *)
Inductive RSResult :=
  | RSLine (received lost port : list ascii)    (* return nbBytes: finalChar copied *)
  | RSTimeout (received port : list ascii)      (* return 0 *)
  | RSFull (received port : list ascii)         (* return -3 *)
  | RSReading.                                  (* the passes supplied ran out *)

(** for (i = 0; i < bytesRead; ++i) { receivedString[nbBytes++] = buffer[i];
    if (buffer[i] == finalChar) { ...; return nbBytes; } }
    Some rest: finalChar was copied and [rest] of the buffer is dropped. *)
Fixpoint copy_chunk (finalChar : ascii) (buffer received : list ascii)
    : list ascii * option (list ascii) :=
  match buffer with
  | [] => (received, None)
  | b :: rest =>
      if Ascii.eqb b finalChar then (received ++ [b], Some rest)
      else copy_chunk finalChar rest (received ++ [b])
  end.

(** The loop of readString.  my_serial.read(buffer, bytesToRead) returns the
    bytesToRead bytes that available() reported. *)
Fixpoint rs_loop (finalChar : ascii) (maxNbBytes timeOut_ms : nat) (iters : list RIter)
    (port received : list ascii) : RSResult :=
  if Nat.ltb (length received) maxNbBytes then
    match iters with
    | [] => RSReading
    | it :: rest =>
        let port1 := port ++ arrived it in
        if Nat.ltb timeOut_ms (elapsed_ms it) then RSTimeout received port1
        else if Nat.eqb (length port1) 0 then
          rs_loop finalChar maxNbBytes timeOut_ms rest port1 received
        else
          let bytesToRead := Nat.min (length port1) (maxNbBytes - length received) in
          match copy_chunk finalChar (firstn bytesToRead port1) received with
          | (received', Some _lost) => RSLine received' _lost (skipn bytesToRead port1)
          | (received', None) =>
              rs_loop finalChar maxNbBytes timeOut_ms rest (skipn bytesToRead port1) received'
          end
    end
  else RSFull received port.

(** SMC100C::readString(my_serial, receivedString, finalChar, maxNbBytes,
    timeOut_ms), starting with the bytes [port] pending on the port. *)
Definition readString (finalChar : ascii) (maxNbBytes timeOut_ms : nat)
    (port : list ascii) (iters : list RIter) : RSResult :=
  rs_loop finalChar maxNbBytes timeOut_ms iters port [].

(** Its int result. *)
Definition readString_status (r : RSResult) : option Z :=
  match r with
  | RSLine received _ _ => Some (Z.of_nat (length received))
  | RSTimeout _ _ => Some 0%Z
  | RSFull _ _ => Some (-3)%Z
  | RSReading => None
  end.

(** The std::string built from the char* receivedString: up to the first '\0'. *)
Fixpoint cstr (l : list ascii) : string :=
  match l with
  | [] => EmptyString
  | c :: l' => if Ascii.eqb c "000"%char then EmptyString else String c (cstr l')
  end.

(** SerialRead(): readString(my_serial, receivedString, '\n', 63, 20), then the
    received string when the status is positive, "Timeout" when it is 0,
    "Error" otherwise.  The result is given as the ReadResult it stands for. *)
Definition SerialRead_port (port : list ascii) (iters : list RIter) : option ReadResult :=
  let r := readString "010"%char 63 20 port iters in
  match readString_status r with
  | None => None
  | Some st =>
      if (0 <? st)%Z then
        match r with
        | RSLine received _ _ => Some (RecvLine (cstr received))
        | _ => None
        end
      else if (st =? 0)%Z then Some RecvTimeout
      else Some RecvBufferFull
  end.

(** GetCurrentStatus(): flushInput empties the port, TS? is sent, and the
    reply is read by SerialRead and decoded. *)
Definition GetCurrentStatus_port (iters : list RIter) : option (outcome string) :=
  match SerialRead_port [] iters with
  | None => None
  | Some r => Some (GetCurrentStatus (Returns r))
  end.

End ReadString.

(** * The command wrappers of SMC100C (SMC100C.cpp, lines 262-562) *)
Module Wrappers.
Import SMC100C ReadString.

Section W.
Variable float : Type.
Variable to_string_int_cast : float -> string.
Variable to_string_float : float -> string.
(** The literal 0.0 passed by the wrappers without a parameter. *)
Variable zero : float.

Let send (addr_written : bool) (ty : CommandType.t) (p : float) (gs : CommandGetSetType.t) :=
  SendCurrentCommand float to_string_int_cast to_string_float addr_written
    (SetCommand float ty p gs).

(** SMC100C::Home *)
Definition Home (addr_written : bool) : bool * list string :=
  send addr_written CommandType.HomeSearch zero CommandGetSetType.None.

(** SMC100C::SetVelocity; the bool SendCurrentCommand returns is dropped. *)
Definition SetVelocity (addr_written : bool) (VelocityToSet : float) : list string :=
  snd (send addr_written CommandType.Velocity VelocityToSet CommandGetSetType.Set_).

(** SMC100C::SetAcceleration *)
Definition SetAcceleration (addr_written : bool) (AccelerationToSet : float) : list string :=
  snd (send addr_written CommandType.Acceleration AccelerationToSet CommandGetSetType.Set_).

(** SMC100C::RelativeMove *)
Definition RelativeMove (addr_written : bool) (DistanceToMove : float) : list string :=
  snd (send addr_written CommandType.MoveRel DistanceToMove CommandGetSetType.Set_).

(** SMC100C::StopMotion *)
Definition StopMotion (addr_written : bool) : list string :=
  snd (send addr_written CommandType.StopMotion zero CommandGetSetType.None).

(** SMC100C::AbsoluteMove *)
Definition AbsoluteMove (addr_written : bool) (AbsoluteDistanceToMove : float) : list string :=
  snd (send addr_written CommandType.MoveAbs AbsoluteDistanceToMove CommandGetSetType.Set_).

(** SMC100C::SetPositiveLimit *)
Definition SetPositiveLimit (addr_written : bool) (Limit : float) : list string :=
  snd (send addr_written CommandType.PositiveSoftwareLim Limit CommandGetSetType.Set_).

(** SMC100C::SetNegativeLimit *)
Definition SetNegativeLimit (addr_written : bool) (Limit : float) : list string :=
  snd (send addr_written CommandType.NegativeSoftwareLim Limit CommandGetSetType.Set_).

(** SMC100C::SetJerkTime *)
Definition SetJerkTime (addr_written : bool) (JerkTime : float) : list string :=
  snd (send addr_written CommandType.JerkTime JerkTime CommandGetSetType.Set_).

(** The getters: flushInput, SetCommand(ty, 0.0, Get), SendCurrentCommand,
    then return SerialRead().  The result is the chunks written and what
    SerialRead returns, read from the flushed port. *)
Definition query (ty : CommandType.t) (addr_written : bool) (iters : list RIter)
    : list string * option string :=
  (snd (send addr_written ty zero CommandGetSetType.Get),
   option_map SerialRead (SerialRead_port [] iters)).

Definition GetPosition := query CommandType.PositionReal.
Definition GetVelocity := query CommandType.Velocity.
Definition GetAcceleration := query CommandType.Acceleration.
Definition GetPositiveLimit := query CommandType.PositiveSoftwareLim.
Definition GetNegativeLimit := query CommandType.NegativeSoftwareLim.

End W.

(** SMC100C::ConvertToErrorString *)
Definition ConvertToErrorString (ErrorChar : ascii) : string :=
  match ErrorChar with
  | "@"%char => "No Error Encountered"
  | "A"%char => "Unknown message"
  | "B"%char => "Incorrect address"
  | "C"%char => "Parameter missing"
  | "D"%char => "Command not allowed"
  | "E"%char => "Already homing"
  | "F"%char => "ESP stage unknown"
  | "G"%char => "Displacement out of limits"
  | "H"%char => "Not allowed in NOT REFERENCED"
  | "I"%char => "Not allowed in CONFIGURATION"
  | "J"%char => "Not allowed in DISABLED"
  | "K"%char => "Not allowed in READY"
  | "L"%char => "Not allowed in HOMING"
  | "M"%char => "Not allowed in MOVING"
  | "N"%char => "Out of soft limits"
  | "S"%char => "Communication time out"
  | "U"%char => "EEPROM error"
  | "V"%char => "Error during command execution"
  | "W"%char => "Command not allowed for PP"
  | "X"%char => "Command not allowed for CC"
  | _ => "0"
  end%string.

End Wrappers.

(** * customSort (individualCommands.cpp, lines 416-424) *)
Module CustomSort.
Local Open Scope string_scope.

Definition is_digit (c : ascii) : bool :=
  Nat.leb 48 (nat_of_ascii c) && Nat.leb (nat_of_ascii c) 57.

(** The longest prefix of decimal digits, and the rest. *)
Fixpoint span_digits (s : string) : string * string :=
  match s with
  | String c s' =>
      if is_digit c then let '(d, r) := span_digits s' in (String c d, r)
      else (EmptyString, s)
  | EmptyString => (EmptyString, EmptyString)
  end.

(** The pattern SEC_(\d+)\.PNG matched at the start of [s]: \d+ is greedy,
    and giving back digits leaves a digit, never the '.', in front of \.PNG,
    so the match exists exactly when the longest digit run is followed by
    .PNG.  The result is the capture group. *)
Definition match_at (s : string) : option string :=
  match s with
  | String "S" (String "E" (String "C" (String "_" rest))) =>
      let '(d, after) := span_digits rest in
      if negb (String.eqb d EmptyString) && String.prefix ".PNG" after then Some d else None
  | _ => None
  end.

(** std::regex_search(s, m, rgx): the leftmost match; m[1] is its group. *)
Fixpoint regex_search (s : string) : option string :=
  match match_at s with
  | Some d => Some d
  | None =>
      match s with
      | EmptyString => None
      | String _ s' => regex_search s'
      end
  end.

(** The value of a string of decimal digits. *)
Fixpoint digits_value_acc (acc : Z) (s : string) : Z :=
  match s with
  | EmptyString => acc
  | String c s' => digits_value_acc (10 * acc + (Z.of_nat (nat_of_ascii c) - 48))%Z s'
  end.

Definition digits_value (s : string) : Z := digits_value_acc 0 s.

Definition INT_MAX : Z := 2147483647.

(** std::stoi on a string of decimal digits (the capture group): the value,
    or std::out_of_range when it does not fit an int. *)
Definition stoi (s : string) : outcome Z :=
  let v := digits_value s in
  if (INT_MAX <? v)%Z then Throws out_of_range else Returns v.

(** std::string operator<: lexicographic, characters compared as unsigned char. *)
Fixpoint string_lt (a b : string) : bool :=
  match a, b with
  | EmptyString, EmptyString => false
  | EmptyString, String _ _ => true
  | String _ _, EmptyString => false
  | String c a', String d b' =>
      if Nat.ltb (nat_of_ascii c) (nat_of_ascii d) then true
      else if Nat.ltb (nat_of_ascii d) (nat_of_ascii c) then false
      else string_lt a' b'
  end.

(** customSort(a, b).  Both stoi calls throw the same exception, so the
    unspecified order of the operands of < does not matter. *)
Definition customSort (a b : string) : outcome bool :=
  match regex_search a with
  | Some ma =>
      match regex_search b with
      | Some mb =>
          match stoi ma with
          | Throws e => Throws e
          | Returns va =>
              match stoi mb with
              | Throws e => Throws e
              | Returns vb => Returns (va <? vb)%Z
              end
          end
      | None => Returns (string_lt a b)
      end
  | None => Returns (string_lt a b)
  end.

End CustomSort.

(** * waitForVelocity (individualCommands.cpp, lines 586-626) *)
Module WaitForVelocity.
Import WaitForPosition.
Local Open Scope list_scope.

Section Loop.
(** The float currentVelocity, std::stof (None when it throws) and the test
    abs(currentVelocity - targetVelocity) < tolerance. *)
Variable Vel : Type.
Variable stof : string -> option Vel.
Variable within_tolerance : Vel -> bool.
Variable targetVelocity : Vel.
Variable timeout_s : nat.

(** One iteration: the result of controller.GetVelocity(), of
    controller.SetVelocity(targetVelocity), and the milliseconds spent inside
    these two calls. *)
Record VIter := {
  get_velocity : outcome string;
  set_velocity : outcome unit;
  v_io_ms : nat }.

Inductive VEv :=
  | EvGetVelocity
  | EvSetVelocity (v : Vel).

(** The try block: whether the velocity matched and the time at its end. *)
Definition query_velocity (it : VIter) (t : nat) : bool * nat :=
  match get_velocity it with
  | Throws _ => (false, t)                       (* caught, no second sleep *)
  | Returns vel =>
      let vel' := remove_crlf vel in
      if Nat.leb 2 (String.length vel') then
        match substr vel' 3 2 with                (* the std::cout line *)
        | Throws _ => (false, t + 100)           (* out_of_range, caught *)
        | Returns w =>
            match stof w with
            | Some currentVelocity => (within_tolerance currentVelocity, t + 100)
            | None => (false, t + 100)           (* stof threw, caught *)
            end
        end
      else (false, t + 100)
  end.

(** while (!velocityMatched) { sleep 50; try {...} catch {...};
    controller.SetVelocity(targetVelocity); if (checkTimeout(...)) break; } *)
Fixpoint vloop (iters : list VIter) (elapsed : nat) : list VEv * WEnd :=
  match iters with
  | [] => ([], WStillLooping)
  | it :: rest =>
      let '(velocityMatched, t) := query_velocity it (elapsed + 50) in
      let t' := t + v_io_ms it in
      match set_velocity it with
      | Throws e => ([EvGetVelocity], WThrew e)
      | Returns _ =>
          if checkTimeout t' timeout_s then
            ([EvGetVelocity; EvSetVelocity targetVelocity], WReturned velocityMatched)
          else if velocityMatched then
            ([EvGetVelocity; EvSetVelocity targetVelocity], WReturned true)
          else
            let '(tr, e) := vloop rest t' in
            (EvGetVelocity :: EvSetVelocity targetVelocity :: tr, e)
      end
  end.

Definition waitForVelocity (iters : list VIter) : list VEv * WEnd := vloop iters 0.

End Loop.
End WaitForVelocity.

(** * Observations on the loader and the wire
    (the quantities the properties below speak about) *)

Module SettingsObs.
Import Settings.
Local Open Scope Z_scope.
Local Open Scope list_scope.

#[global] Instance LayerSettings_eq_dec : EqDecision LayerSettings.
Proof. intros [a b c] [a' b' c']. unfold Decision. decide equality; apply Z.eq_dec. Defined.

(** The settings each data row is read as, in file order. *)
Fixpoint parsed_rows (uninit : nat -> Z * Z * Z * Z) (n : nat) (rows : list string)
    : list LayerSettings :=
  match rows with
  | [] => []
  | line :: rows' => parse_row (uninit n) line :: parsed_rows uninit (S n) rows'
  end.

Definition loaded_rows (uninit : nat -> Z * Z * Z * Z) (file : option string) : list LayerSettings :=
  match file with
  | None => []
  | Some contents => parsed_rows uninit 0 (data_rows contents)
  end.

(** The distinct settings of a list, in order of first appearance. *)
Definition add_first (acc : list LayerSettings) (x : LayerSettings) : list LayerSettings :=
  if decide (x ∈ acc) then acc else acc ++ [x].
Definition firsts (l : list LayerSettings) : list LayerSettings := fold_left add_first l [].

(** Number of rows read as exactly [x]. *)
Fixpoint count_settings (x : LayerSettings) (l : list LayerSettings) : Z :=
  match l with
  | [] => 0
  | y :: l' => (if decide (y = x) then 1 else 0) + count_settings x l'
  end.

Fixpoint sum_Z (l : list Z) : Z :=
  match l with [] => 0 | z :: l' => z + sum_Z l' end.

(** The loop invariant of readSettingsOrdered after the rows [seen]. *)
Definition table_inv (seen : list LayerSettings)
    (acc : list (LayerSettings * Z) * gmap (Z * Z * Z) Z) : Prop :=
  let '(v, m) := acc in
  map fst v = firsts seen /\
  Forall (fun '(s, c) => c = count_settings s seen) v /\
  (forall s, is_Some (m !! tie s) <-> s ∈ seen) /\
  sum_Z (map snd v) = Z.of_nat (length seen).

(** A line without '\n'. *)
Fixpoint no_newline (s : string) : bool :=
  match s with
  | EmptyString => true
  | String c s' => negb (Ascii.eqb c "010"%char) && no_newline s'
  end.

End SettingsObs.

Module WireObs.
Local Open Scope string_scope.

Definition CRLF : string := String "013" (String "010" "").

(** A reply of a stage that is Ready. *)
Definition ready_line : SMC100C.ReadResult :=
  SMC100C.RecvLine ("1TS000033" ++ String "013" (String "010" ""))%string.

End WireObs.

Module WaitObs.
Import WaitForPosition.

(** Total duration of iterations, in milliseconds. *)
Fixpoint sum_ms (Pos : Type) (stof : string -> option Pos) (within_tolerance : Pos -> bool)
    (l : list Iter) : nat :=
  match l with
  | [] => 0
  | it :: l' => iter_ms Pos stof within_tolerance it + sum_ms Pos stof within_tolerance l'
  end.

End WaitObs.

(** The frame-gating discipline, read off the loops' event traces: a stage
    move is launched only when none is in flight; the buffers are swapped
    only in a dark phase, with the next image loaded since the last swap, no
    move in flight, and more than the dark duration elapsed since the dark
    phase began; an image is presented only outside a dark phase.  The dark
    duration is the one of the settings applied last. *)
Module GateMonitor.
Import Settings PrintLoop.
Local Open Scope Z_scope.

Record Mon := {
  in_flight : bool;   (* a move was launched and not joined *)
  loaded : bool;      (* the next image was loaded since the last swap *)
  dark : bool;        (* a dark phase began and no swap ended it *)
  dark_t0 : Z;        (* when the dark phase began *)
  threshold : Z }.    (* the dark duration in force *)

Definition mon_step (m : Mon) (ev : Ev) : option Mon :=
  match ev with
  | EvLaunchMove =>
      if in_flight m then None
      else Some {| in_flight := true; loaded := loaded m; dark := dark m;
                   dark_t0 := dark_t0 m; threshold := threshold m |}
  | EvJoinMove =>
      Some {| in_flight := false; loaded := loaded m; dark := dark m;
              dark_t0 := dark_t0 m; threshold := threshold m |}
  | EvLoadTexture _ _ =>
      Some {| in_flight := in_flight m; loaded := true; dark := dark m;
              dark_t0 := dark_t0 m; threshold := threshold m |}
  | EvDarkStart t0 =>
      Some {| in_flight := in_flight m; loaded := loaded m; dark := true;
              dark_t0 := t0; threshold := threshold m |}
  | EvSwap t1 =>
      if dark m && loaded m && negb (in_flight m) && (threshold m <? t1 - dark_t0 m)
      then Some {| in_flight := in_flight m; loaded := false; dark := false;
                   dark_t0 := dark_t0 m; threshold := threshold m |}
      else None
  | EvPresentImage _ => if dark m then None else Some m
  | EvApplySettings st =>
      Some {| in_flight := in_flight m; loaded := loaded m; dark := dark m;
              dark_t0 := dark_t0 m; threshold := darkTime st |}
  | _ => Some m
  end.

Fixpoint mon_run (m : Mon) (tr : list Ev) : option Mon :=
  match tr with
  | [] => Some m
  | ev :: tr' => match mon_step m ev with Some m' => mon_run m' tr' | None => None end
  end.

(** The trace keeps the discipline from the loop's start (nothing in flight,
    nothing loaded, light phase) with dark duration [th]. *)
Definition gate_ok (th : Z) (tr : list Ev) : bool :=
  match mon_run {| in_flight := false; loaded := false; dark := false;
                   dark_t0 := 0; threshold := th |} tr with
  | Some _ => true
  | None => false
  end.

(** The monitor state a loop state stands for. *)
Definition alpha (th : Z) (s : St) : Mon :=
  {| in_flight := isStageThreadRunning s; loaded := nextImageLoaded s;
     dark := negb (displayImage s); dark_t0 := darkTimeStart s; threshold := th |}.

(** The preload flags move together: both are set by the preload and both
    are cleared by the swap. *)
Definition inv (s : St) : Prop := nextImageLoaded s = isNextImageLoading s.

(** One iteration of either frame loop keeps the discipline and the
    invariant; an aborted iteration leaves the monitor where it was. *)
Definition iter_ok (th : Z) (s : St) (r : IterRes) : Prop :=
  match r with
  | IAbort evs => mon_run (alpha th s) evs = Some (alpha th s)
  | IBreak s' evs | ICont s' evs _ => mon_run (alpha th s) evs = Some (alpha th s') /\ inv s'
  end.

Definition loop_state (e : LoopEnd) : St :=
  match e with LAborted s | LExited s | LPending s => s end.

Definition group_state (e : GroupEnd) : St :=
  match e with GAborted s | GDone s _ | GPending s => s end.

End GateMonitor.

(** Observations on the runs: the settings log of a dynamic run, the
    number of printed layers, and a stage that always answers at once. *)
Module RunObs.
Import Settings PrintLoop.
Local Open Scope Z_scope.
Local Open Scope list_scope.

(** The "Applying settings" and "Printed layer" lines of a trace. *)
Fixpoint settings_log (tr : list Ev) : list Ev :=
  match tr with
  | [] => []
  | (EvApplySettings _ as ev) :: tr' | (EvPrintedLayer _ as ev) :: tr' => ev :: settings_log tr'
  | _ :: tr' => settings_log tr'
  end.

(** The number of "Printed layer" lines of a trace. *)
Fixpoint count_printed (tr : list Ev) : nat :=
  match tr with
  | [] => O
  | EvPrintedLayer _ :: tr' => S (count_printed tr')
  | _ :: tr' => count_printed tr'
  end.

(** The shutdown actions of RunFull. *)
Definition shutdown_action (ev : Ev) : bool :=
  match ev with EvHome | EvClose => true | _ => false end.

(** Frame k: the window open, no abort, the clock at k seconds and the
    stage move (if any) finished. *)
Definition ready_tick (k : nat) : Tick :=
  {| closed := false; abort := false; now := 1000 * Z.of_nat k; move_ready := true |}.

Definition ready_ticks (n : nat) : list Tick := map ready_tick (seq 1 n).

(** The same, with the abort flag set from frame [k0] on. *)
Definition abort_tick (k0 k : nat) : Tick :=
  {| closed := false; abort := Nat.leb k0 k; now := 1000 * Z.of_nat k; move_ready := true |}.

Definition abort_ticks (k0 n : nat) : list Tick := map (abort_tick k0) (seq 1 n).

(** Five images, 5 frames for the first two layers and 3 after, 100 ms dark. *)
Definition printP : FullParams :=
  {| nimages := 5; maxImageDisplayCount := 3; mindarktime := 100;
     initialExposureCounter := 5; initialLayers := 2 |}.

(** Two groups of dynamic settings. *)
Definition S1 : LayerSettings := mkLayerSettings 10 5 100.
Definition S2 : LayerSettings := mkLayerSettings 20 8 150.

End RunObs.

(** * Observations on the port, the command table, the sort and the textures *)
Module ReadObs.
Import ReadString.
Local Open Scope list_scope.

(** The bytes that reached the port in the first [k] passes. *)
Definition arrivals (iters : list RIter) (k : nat) : list ascii :=
  concat (map arrived (firstn k iters)).

(** What rs_loop, started with [port] pending and [received] copied, leaves
    as its result [r]: the bytes copied since, with or without the final
    char, the buffer bound, and no byte of the port lost except the dropped
    rest of the read that held the final char. *)
Definition rs_post (finalChar : ascii) (maxNbBytes : nat) (iters : list RIter)
    (port received : list ascii) (r : RSResult) : Prop :=
  match r with
  | RSLine received' lost rest =>
      exists body k, received' = received ++ body ++ [finalChar] /\ ~ In finalChar body /\
        length received' + length lost <= maxNbBytes /\
        port ++ arrivals iters k = body ++ [finalChar] ++ lost ++ rest
  | RSTimeout received' rest =>
      exists body k, received' = received ++ body /\ ~ In finalChar body /\
        length received' < maxNbBytes /\ port ++ arrivals iters k = body ++ rest
  | RSFull received' rest =>
      exists body k, received' = received ++ body /\ ~ In finalChar body /\
        length received' = maxNbBytes /\ port ++ arrivals iters k = body ++ rest
  | RSReading => True
  end.

End ReadObs.

Module TableObs.
Import SMC100C.
Local Open Scope string_scope.

(** The command whose two-character code is [code], looked up in CommandLibrary. *)
Fixpoint lookup_code (code : string) (lib : list CommandStruct) : option CommandType.t :=
  match lib with
  | [] => None
  | c :: lib' => if String.eqb (CommandChar c) code then Some (Command c) else lookup_code code lib'
  end.

(** The error characters ConvertToErrorString names. *)
Definition error_chars : list ascii :=
  ["@"; "A"; "B"; "C"; "D"; "E"; "F"; "G"; "H"; "I"; "J"; "K"; "L"; "M"; "N";
   "S"; "U"; "V"; "W"; "X"]%char.

End TableObs.

Module SortObs.
Import CustomSort.
Local Open Scope string_scope.

(** No upper-case S in [s]: no match of the pattern can start inside it. *)
Fixpoint no_S (s : string) : bool :=
  match s with
  | EmptyString => true
  | String c s' => negb (Ascii.eqb c "S"%char) && no_S s'
  end.

Fixpoint all_digits (s : string) : bool :=
  match s with
  | EmptyString => true
  | String c s' => is_digit c && all_digits s'
  end.

(** A slice file name: [dir] SEC_<digits>.PNG [suffix]. *)
Definition slice_name (dir digits suffix : string) : string :=
  dir ++ "SEC_" ++ digits ++ ".PNG" ++ suffix.

End SortObs.

Module TexObs.
Import PrintLoop.
Local Open Scope list_scope.

(** The image held by each of the two textures (None: not loaded), and the
    number of buffer swaps so far. *)
Record TexSt := { slot0 : option nat; slot1 : option nat; swaps : nat }.

Definition get_slot (m : TexSt) (tex : nat) : option nat :=
  if Nat.eqb tex 0 then slot0 m else slot1 m.

(** textures[tex].loadFromFile(imagePaths[k]) *)
Definition put_slot (m : TexSt) (tex k : nat) : TexSt :=
  if Nat.eqb tex 0 then {| slot0 := Some k; slot1 := slot1 m; swaps := swaps m |}
  else {| slot0 := slot0 m; slot1 := Some k; swaps := swaps m |}.

Definition opt_eqb (a b : option nat) : bool :=
  match a, b with
  | Some x, Some y => Nat.eqb x y
  | None, None => true
  | _, _ => false
  end.

(** The texture discipline: a load brings image swaps+1, below [nimages],
    into texture 0 or 1 and never into the texture holding the image on
    show (image swaps); a presented frame shows the texture holding image
    swaps. *)
Definition tex_step (nimages : nat) (m : TexSt) (ev : Ev) : option TexSt :=
  match ev with
  | EvLoadTexture tex k =>
      if Nat.eqb k (S (swaps m)) && Nat.ltb k nimages && Nat.leb tex 1
         && negb (opt_eqb (get_slot m tex) (Some (swaps m)))
      then Some (put_slot m tex k)
      else None
  | EvSwap _ => Some {| slot0 := slot0 m; slot1 := slot1 m; swaps := S (swaps m) |}
  | EvPresentImage tex =>
      if opt_eqb (get_slot m tex) (Some (swaps m)) then Some m else None
  | _ => Some m
  end.

Fixpoint tex_run (nimages : nat) (m : TexSt) (tr : list Ev) : option TexSt :=
  match tr with
  | [] => Some m
  | ev :: tr' =>
      match tex_step nimages m ev with
      | Some m' => tex_run nimages m' tr'
      | None => None
      end
  end.

(** Before the loop: image 0 preloaded into textures[0]. *)
Definition tex_init : TexSt := {| slot0 := Some 0; slot1 := None; swaps := 0 |}.

(** How the loop state and the textures agree: the image on show,
    currentImageIndex, is the number of swaps and sits in
    textures[currentTextureIndex]; while the next image is loading (and
    nextImageLoaded says the same) it sits in the other texture, which
    otherwise does not hold the image on show. *)
Definition tinv (s : St) (m : TexSt) : Prop :=
  swaps m = currentImageIndex s /\
  currentTextureIndex s <= 1 /\
  get_slot m (currentTextureIndex s) = Some (currentImageIndex s) /\
  (if isNextImageLoading s
   then get_slot m (1 - currentTextureIndex s) = Some (S (currentImageIndex s))
   else (get_slot m (1 - currentTextureIndex s) <> Some (currentImageIndex s))) /\
  nextImageLoaded s = isNextImageLoading s.

(** A group of RunFullDynamic reached after the last image was shown, with
    [running] telling whether a stage move is in flight: it applies its
    settings (the light set to the low 8 bits of the intensity), shows one
    blank frame, launches a move when none is in
    flight, joins it when it is ready, and switches the light off again. *)
Fixpoint leftover_groups (orderedSettings : list (Settings.LayerSettings * Z))
    (ticks : list Tick) (running : bool) : list Ev :=
  match orderedSettings with
  | [] => []
  | (setting, layerCount) :: gs =>
      [EvApplySettings setting; EvSetCurrent (Z.land (Settings.intensity setting) 255)] ++
      if (layerCount <? 0)%Z then leftover_groups gs ticks running
      else
        match ticks with
        | [] => []
        | t :: ts =>
            [EvPresentBlank] ++ (if running then [] else [EvLaunchMove])
            ++ (if move_ready t then [EvJoinMove] else []) ++ [EvSetCurrent 0]
            ++ leftover_groups gs ts (negb (move_ready t))
        end
  end.


(** What the loop state of RunFullDynamic keeps once the last image has been
    shown: the dark phase is on, nothing is loading, and no next image is
    left; nextImageLoaded and isNextImageLoading agree throughout. *)
Definition shown_inv (nimages_ : nat) (s : St) : Prop :=
  nextImageLoaded s = isNextImageLoading s /\
  (allImagesShown s = true ->
   displayImage s = false /\ isNextImageLoading s = false /\ (nimages_ <= S (currentImageIndex s))%nat).

End TexObs.

(** Sample runs of the frame loops. *)
Module LoopSamples.
Local Open Scope list_scope.


Definition lg_setting : Settings.LayerSettings := Settings.mkLayerSettings 10 1 0.
Definition lg_tick (t : Z) (ready : bool) : PrintLoop.Tick :=
  {| PrintLoop.closed := false; PrintLoop.abort := false; PrintLoop.now := t; PrintLoop.move_ready := ready |}.
Definition lg_state : PrintLoop.St :=
  {| PrintLoop.displayImage := false; PrintLoop.imageDisplayCount := 0; PrintLoop.currentLayer := 1;
     PrintLoop.inInitialPhase := true; PrintLoop.currentImageIndex := 0;
     PrintLoop.currentTextureIndex := 0; PrintLoop.nextImageLoaded := false;
     PrintLoop.isNextImageLoading := false; PrintLoop.allImagesShown := true;
     PrintLoop.isStageThreadRunning := true; PrintLoop.darkTimeStart := 0 |}.

End LoopSamples.

(** * Properties *)

Module StatusProofs.
Import SMC100C.
Local Open Scope string_scope.

(** Claim C5 (counterexample): a response shorter than 7 characters is not
    decoded: the substr(7, 2) throws std::out_of_range.  This happens for the
    5-character "Error" that SerialRead returns when readString fills its
    buffer without seeing '\n'. *)
Lemma C5_short_response_throws :
  GetCurrentStatus (Returns RecvBufferFull) = Throws out_of_range.
Proof. reflexivity. Qed.

(** Claim C5 (amended): for every response of at least 7 characters, the
    token is the 2-character substring at offset 7; "33" decodes to "Ready";
    a token absent from StatusLibrary decodes to "Unknown Status Code: <token>",
    which differs from "Unknown" and from every other status string; and the
    decode returns a string (never throws). *)
Theorem C5_decode_status_long_response (response : string)
    (Hlen : 7 <= String.length response) :
  let tok := String.substring 7 2 response in
  (tok = "33" -> decode_status response = Returns "Ready") /\
  (find_status tok StatusLibrary = None ->
     decode_status response = Returns ("Unknown Status Code: " ++ tok) /\
     (forall t, "Unknown Status Code: " ++ tok <> status_string t)) /\
  (exists s, decode_status response = Returns s).
Proof.
  intros tok.
  assert (Hsub : substr response 7 2 = Returns tok).
  { unfold substr. destruct (Nat.ltb_spec (String.length response) 7); [lia | reflexivity]. }
  unfold decode_status. rewrite Hsub. split; [| split].
  - intros Htok. rewrite Htok. reflexivity.
  - intros Hnone. rewrite Hnone. split; [reflexivity |].
    intros t; destruct t; simpl; discriminate.
  - destruct (find_status tok StatusLibrary); eauto.
Qed.

(** Witness for C5_decode_status_long_response: the reply 1TS000033 of a
    stage that is Ready from Moving. *)
Lemma C5_decode_status_long_response_witness :
  7 <= String.length ("1TS000033" ++ String "013" (String "010" ""))
  /\ decode_status ("1TS000033" ++ String "013" (String "010" "")) = Returns "Ready".
Proof.
  split; [simpl; lia |].
  apply (C5_decode_status_long_response ("1TS000033" ++ String "013" (String "010" ""))).
  - simpl; lia.
  - reflexivity.
Defined.

End StatusProofs.

Module EncodingProofs.
Import SMC100C WireObs.
Local Open Scope string_scope.



(** The table lookup of SetCommand returns the entry of the requested type. *)
Lemma SetCommand_entry float (ty : CommandType.t) (p : float) gs :
  Command (EntryCommand (SetCommand float ty p gs)) = ty.
Proof. destruct ty; reflexivity. Qed.



End EncodingProofs.

Module SettingsProofs.
Import Settings SettingsObs.
Local Open Scope Z_scope.
Local Open Scope list_scope.


Lemma tie_inj a b : tie a = tie b -> a = b.
Proof. destruct a, b; unfold tie; simpl; intros H; inversion H; subst; reflexivity. Qed.

Lemma LayerSettings_eqb_spec a b : LayerSettings_eqb a b = true <-> a = b.
Proof.
  destruct a as [i e d], b as [i' e' d']; unfold LayerSettings_eqb; simpl.
  rewrite !andb_true_iff, !Z.eqb_eq. split.
  - intros [[-> ->] ->]. reflexivity.
  - intros H; inversion H; auto.
Qed.

Lemma count_settings_app x l1 l2 :
  count_settings x (l1 ++ l2) = count_settings x l1 + count_settings x l2.
Proof. induction l1; simpl; lia. Qed.

Lemma fold_add_first_app acc l x :
  fold_left add_first (l ++ [x]) acc = add_first (fold_left add_first l acc) x.
Proof. rewrite fold_left_app. reflexivity. Qed.

Lemma add_first_in acc x : x ∈ acc -> add_first acc x = acc.
Proof. intros H. unfold add_first. case_decide; [reflexivity | contradiction]. Qed.

Lemma add_first_notin acc x : x ∉ acc -> add_first acc x = acc ++ [x].
Proof. intros H. unfold add_first. case_decide; [contradiction | reflexivity]. Qed.

Lemma elem_of_fold_add_first acc l x :
  x ∈ fold_left add_first l acc <-> x ∈ acc \/ x ∈ l.
Proof.
  revert acc. induction l as [| y l IH]; intros acc; simpl.
  - set_solver.
  - rewrite IH. unfold add_first. case_decide; set_solver.
Qed.

Lemma NoDup_fold_add_first acc l :
  NoDup acc -> NoDup (fold_left add_first l acc).
Proof.
  revert acc. induction l as [| y l IH]; intros acc Hacc; simpl; [exact Hacc |].
  apply IH. unfold add_first. case_decide; [exact Hacc |].
  apply NoDup_app. split; [exact Hacc |]. split.
  - intros z Hz Hz'. apply list_elem_of_singleton in Hz'. subst. contradiction.
  - apply NoDup_singleton.
Qed.


Lemma elem_of_map_fst (s : LayerSettings) (c : Z) (v : list (LayerSettings * Z)) :
  (s, c) ∈ v -> s ∈ map fst v.
Proof. rewrite !list_elem_of_In. intros H. exact (in_map fst v (s, c) H). Qed.

Lemma count_settings_snoc_other s cur seen :
  s <> cur -> count_settings s (seen ++ [cur]) = count_settings s seen.
Proof.
  intros Hne. rewrite count_settings_app. simpl. case_decide; [congruence | lia].
Qed.

Lemma count_settings_snoc_same cur seen :
  count_settings cur (seen ++ [cur]) = count_settings cur seen + 1.
Proof. rewrite count_settings_app. simpl. case_decide; [lia | congruence]. Qed.

Lemma increment_first_fst cur v : map fst (increment_first cur v) = map fst v.
Proof.
  induction v as [| [s n] v IH]; simpl; [reflexivity |].
  destruct (LayerSettings_eqb s cur); simpl; congruence.
Qed.

Lemma increment_first_sum cur v :
  cur ∈ map fst v -> sum_Z (map snd (increment_first cur v)) = sum_Z (map snd v) + 1.
Proof.
  induction v as [| [s n] v IH]; simpl; intros Hin; [inversion Hin |].
  destruct (LayerSettings_eqb s cur) eqn:E; simpl; [lia |].
  apply elem_of_cons in Hin as [Hin | Hin].
  - assert (LayerSettings_eqb s cur = true) by (apply LayerSettings_eqb_spec; symmetry; exact Hin).
    congruence.
  - rewrite IH by exact Hin. lia.
Qed.

Lemma increment_first_counts cur seen v :
  Forall (fun '(s, c) => c = count_settings s seen) v ->
  NoDup (map fst v) ->
  Forall (fun '(s, c) => c = count_settings s (seen ++ [cur])) (increment_first cur v).
Proof.
  induction v as [| [s n] v IH]; simpl; intros Hf Hnd; [constructor |].
  apply Forall_cons in Hf as [Hs Hf]. apply NoDup_cons in Hnd as [Hnotin Hnd].
  destruct (LayerSettings_eqb s cur) eqn:E.
  - apply LayerSettings_eqb_spec in E. subst s.
    constructor; [rewrite count_settings_snoc_same; lia |].
    rewrite Forall_forall in Hf |- *. intros [s' c'] Hin.
    specialize (Hf (s', c') Hin). simpl in Hf.
    assert (s' <> cur).
    { intros ->. apply Hnotin. exact (elem_of_map_fst cur c' v Hin). }
    rewrite count_settings_snoc_other by assumption. exact Hf.
  - assert (s <> cur) by (intros ->; rewrite (proj2 (LayerSettings_eqb_spec cur cur)) in E; congruence).
    constructor; [rewrite count_settings_snoc_other by assumption; exact Hs |].
    apply IH; assumption.
Qed.

Lemma table_inv_nodup seen v m : table_inv seen (v, m) -> NoDup (map fst v).
Proof.
  intros [Hf _]. rewrite Hf. apply NoDup_fold_add_first. constructor.
Qed.

Lemma step_row_inv seen cur acc :
  table_inv seen acc -> table_inv (seen ++ [cur]) (step_row cur acc).
Proof.
  destruct acc as [v m]. intros Hinv.
  pose proof (table_inv_nodup _ _ _ Hinv) as Hnd.
  destruct Hinv as (Hfst & Hcnt & Hdom & Hsum).
  unfold step_row.
  destruct (m !! tie cur) as [c |] eqn:Hm.
  - (* the setting was seen before *)
    assert (Hseen : cur ∈ seen) by (apply Hdom; rewrite Hm; eauto).
    assert (Hinv' : cur ∈ map fst v).
    { rewrite Hfst. unfold firsts. apply elem_of_fold_add_first. auto. }
    simpl. rewrite lookup_insert_eq. simpl.
    split; [| split; [| split]].
    + rewrite increment_first_fst, Hfst. unfold firsts. rewrite fold_add_first_app.
      rewrite add_first_in; [reflexivity |]. apply elem_of_fold_add_first. auto.
    + apply increment_first_counts; assumption.
    + intros s. destruct (decide (tie cur = tie s)) as [Heq | Hne].
      * rewrite Heq, lookup_insert_eq. apply tie_inj in Heq. subst.
        split; [intros _; set_solver | eauto].
      * rewrite !lookup_insert_ne by exact Hne. rewrite Hdom.
        assert (s <> cur) by (intros ->; congruence). set_solver.
    + rewrite increment_first_sum by exact Hinv'. rewrite Hsum, length_app. simpl. lia.
  - (* a new setting *)
    assert (Hnew : cur ∉ seen).
    { intros Hin. apply Hdom in Hin. rewrite Hm in Hin. destruct Hin; discriminate. }
    simpl. rewrite Hm. simpl.
    split; [| split; [| split]].
    + rewrite map_app, Hfst. unfold firsts. rewrite fold_add_first_app.
      destruct (decide (cur ∈ fold_left add_first seen [])) as [Hd | Hd].
      * exfalso. apply elem_of_fold_add_first in Hd as [Hd | Hd]; [inversion Hd | contradiction].
      * rewrite add_first_notin by exact Hd. reflexivity.
    + apply Forall_app. split.
      * rewrite Forall_forall in Hcnt |- *. intros [s c] Hin. specialize (Hcnt (s, c) Hin).
        simpl in Hcnt |- *.
        assert (s ∈ seen).
        { assert (Hs : s ∈ map fst v) by exact (elem_of_map_fst s c v Hin).
          rewrite Hfst in Hs. apply elem_of_fold_add_first in Hs as [Hs | Hs]; [inversion Hs | exact Hs]. }
        rewrite count_settings_snoc_other by (intros ->; contradiction). exact Hcnt.
      * constructor; [| constructor]. simpl.
        rewrite count_settings_snoc_same.
        assert (count_settings cur seen = 0).
        { clear -Hnew. induction seen as [| y seen IH]; simpl; [reflexivity |].
          case_decide; [subst; set_solver |]. rewrite IH by set_solver. reflexivity. }
        lia.
    + intros s. destruct (decide (tie cur = tie s)) as [Heq | Hne].
      * rewrite Heq, lookup_insert_eq. apply tie_inj in Heq. subst.
        split; [intros _; set_solver | eauto].
      * rewrite !lookup_insert_ne by exact Hne. rewrite Hdom.
        assert (s <> cur) by (intros ->; congruence). set_solver.
    + rewrite map_app, length_app. simpl.
      assert (forall l z, sum_Z (l ++ [z]) = sum_Z l + z) as Hs.
      { intros l z; induction l; simpl; lia. }
      rewrite Hs, Hsum. lia.
Qed.

Lemma table_inv_init : table_inv [] ([], ∅).
Proof.
  unfold table_inv. split; [reflexivity |]. split; [constructor |]. split; [| reflexivity].
  intros s. rewrite lookup_empty. split; [intros [? H]; discriminate | intros H; inversion H].
Qed.

Lemma read_rows_inv uninit rows : forall n seen acc,
  table_inv seen acc ->
  table_inv (seen ++ parsed_rows uninit n rows) (read_rows uninit n rows acc).
Proof.
  induction rows as [| line rows IH]; intros n seen acc Hinv; simpl.
  - rewrite app_nil_r. exact Hinv.
  - replace (seen ++ parse_row (uninit n) line :: parsed_rows uninit (S n) rows)
      with ((seen ++ [parse_row (uninit n) line]) ++ parsed_rows uninit (S n) rows)
      by (rewrite <- app_assoc; reflexivity).
    apply IH. apply step_row_inv. exact Hinv.
Qed.

Lemma readSettingsOrdered_inv uninit file :
  table_inv (loaded_rows uninit file) (readSettingsOrdered uninit file, 
    match file with
    | None => ∅
    | Some contents => snd (read_rows uninit 0 (data_rows contents) ([], ∅))
    end).
Proof.
  destruct file as [contents |]; simpl.
  - pose proof (read_rows_inv uninit (data_rows contents) 0 [] ([], ∅) table_inv_init) as H.
    simpl in H. destruct (read_rows uninit 0 (data_rows contents) ([], ∅)). exact H.
  - exact table_inv_init.
Qed.

Lemma parsed_rows_length uninit rows : forall n, length (parsed_rows uninit n rows) = length rows.
Proof. induction rows; intros n; simpl; [reflexivity | rewrite IHrows; reflexivity]. Qed.

(** Claim C6: the table returned by readSettingsOrdered has no two entries
    with equal LayerSettings, lists the settings in the order of their first
    appearance among the data rows, lists every setting read, and gives each
    entry the number of data rows read as exactly that setting (so a repeated
    setting increments its entry instead of appending one). *)
Theorem C6_readSettingsOrdered_invariant (uninit : nat -> Z * Z * Z * Z) (file : option string) :
  let rows := loaded_rows uninit file in
  let table := readSettingsOrdered uninit file in
  NoDup (map fst table) /\
  map fst table = firsts rows /\
  (forall s, s ∈ map fst table <-> s ∈ rows) /\
  Forall (fun '(s, c) => c = count_settings s rows) table.
Proof.
  intros rows table.
  pose proof (readSettingsOrdered_inv uninit file) as Hinv.
  pose proof (table_inv_nodup _ _ _ Hinv) as Hnd.
  destruct Hinv as (Hfst & Hcnt & _ & _).
  split; [exact Hnd |]. split; [exact Hfst |]. split; [| exact Hcnt].
  intros s. unfold table, rows. rewrite Hfst. unfold firsts. rewrite elem_of_fold_add_first.
  split; [intros [H | H]; [inversion H | exact H] | auto].
Qed.

(** Claim C7 (counterexample): the row 1,10,5,abc has a non-numeric dark
    time; it is not rejected: the failed field reads as 0 and the row becomes
    the table entry (10, 5, 0) with count 1. *)
Lemma C7_non_numeric_row_absorbed :
  readSettingsOrdered (fun _ => (0, 0, 0, 0))
    (Some ("layer,intensity,exposure,dark" ++ String "010" ("1,10,5,abc" ++ String "010" ""))%string)
  = [(mkLayerSettings 10 5 0, 1)].
Proof. vm_compute. reflexivity. Qed.

(** Claim C7 (amended): readSettingsOrdered surfaces no parse error: every
    data row, numeric or not, is counted into the table (the counts add up
    to the number of data rows).  A field without digits reads as 0 and
    fails the stream; every later extraction of the row then leaves its
    variable untouched (at its indeterminate initial value). *)
Theorem C7_rows_never_rejected (uninit : nat -> Z * Z * Z * Z) (contents : string) :
  sum_Z (map snd (readSettingsOrdered uninit (Some contents)))
    = Z.of_nat (length (data_rows contents)) /\
  (forall st old c s', igood st = true -> skip_ws (ibuf st) = String c s' ->
     digit_value c = None -> c <> "-"%char -> c <> "+"%char ->
     snd (extract_int st old) = 0 /\ igood (fst (extract_int st old)) = false) /\
  (forall st old, igood st = false -> extract_int st old = (st, old)).
Proof.
  split; [| split].
  - pose proof (readSettingsOrdered_inv uninit (Some contents)) as (_ & _ & _ & Hsum).
    rewrite Hsum. simpl. rewrite parsed_rows_length. reflexivity.
  - intros st old c s' Hgood Hws Hd Hm Hp. unfold extract_int. rewrite Hgood, Hws. simpl.
    destruct (Ascii.eqb_spec c "-"%char); [contradiction |].
    destruct (Ascii.eqb_spec c "+"%char); [contradiction |].
    simpl. rewrite Hd. simpl. split; reflexivity.
  - intros st old Hbad. unfold extract_int. rewrite Hbad. reflexivity.
Qed.

Lemma split_nl_no_newline h : no_newline h = true -> split_nl h = [h].
Proof.
  induction h as [| c h IH]; simpl; [reflexivity |].
  intros H. apply andb_prop in H as [Hc Hh].
  destruct (Ascii.eqb c "010"%char); [discriminate |]. rewrite (IH Hh). reflexivity.
Qed.

Lemma split_nl_header_line h :
  no_newline h = true -> split_nl (h ++ String "010" EmptyString)%string = [h; EmptyString].
Proof.
  induction h as [| c h IH]; simpl; [reflexivity |].
  intros H. apply andb_prop in H as [Hc Hh].
  destruct (Ascii.eqb c "010"%char); [discriminate |]. rewrite (IH Hh). reflexivity.
Qed.

(** Claim C10: a file that cannot be opened, or that holds only the header
    line (with or without its final newline), gives the empty table, and
    readSettingsOrdered returns it without any error; a dynamic run on the
    empty table prints no layer group: it goes straight to its shutdown. *)
Theorem C10_no_rows_empty_table (uninit : nat -> Z * Z * Z * Z) (h : string)
    (nimages : nat) (ticks : list PrintLoop.Tick) (Hh : no_newline h = true) :
  readSettingsOrdered uninit None = [] /\
  readSettingsOrdered uninit (Some h) = [] /\
  readSettingsOrdered uninit (Some (h ++ String "010" EmptyString)%string) = [] /\
  PrintLoop.RunFullDynamic nimages [] ticks
    = (PrintLoop.shutdown PrintLoop.init_state, PrintLoop.RFinished).
Proof.
  split; [reflexivity |]. split; [| split; [| reflexivity]].
  - unfold readSettingsOrdered, data_rows, getlines. rewrite (split_nl_no_newline h Hh).
    simpl. destruct h; reflexivity.
  - unfold readSettingsOrdered, data_rows, getlines. rewrite (split_nl_header_line h Hh).
    reflexivity.
Qed.

Lemma C10_no_rows_empty_table_witness :
  no_newline "layer,intensity,exposure,dark"%string = true /\
  readSettingsOrdered (fun _ => (0, 0, 0, 0)) None = [] /\
  readSettingsOrdered (fun _ => (0, 0, 0, 0)) (Some "layer,intensity,exposure,dark"%string) = [] /\
  readSettingsOrdered (fun _ => (0, 0, 0, 0))
    (Some ("layer,intensity,exposure,dark" ++ String "010" EmptyString)%string) = [] /\
  PrintLoop.RunFullDynamic 4 [] []
    = (PrintLoop.shutdown PrintLoop.init_state, PrintLoop.RFinished).
Proof.
  split; [reflexivity |].
  apply (C10_no_rows_empty_table (fun _ => (0, 0, 0, 0)) "layer,intensity,exposure,dark"%string 4 []).
  reflexivity.
Defined.

End SettingsProofs.

Module MoveStageProofs.
Import SMC100C MoveStage WireObs.
Local Open Scope list_scope.
Local Open Scope Z_scope.


(** Claim C4 (counterexample): in clip mode the main step is issued twice
    when the first status read fails (here: readString filled its buffer, so
    SerialRead gave the 5-character "Error" and substr(7, 2) threw): the
    catch block retries the whole sub-move, RelativeMove included. *)
Lemma C4_retry_repeats_move :
  let tr := fst (moveStage 5 true 2
                   [Returns RecvTimeout; Returns RecvBufferFull;
                    Returns RecvTimeout; Returns ready_line]) in
  tr = [EvRelativeMove 5; EvException out_of_range; EvRelativeMove 5; EvStatus "Ready"%string]
  /\ moves tr = [5; 5].
Proof. split; reflexivity. Qed.

Lemma mcr_sound (d : Z) rs :
  (forall tr rest, mcr_move d rs = (tr, Some rest) -> mcr_trace d tr) /\
  (forall tr rest, mcr_poll d rs = (tr, Some rest) ->
     exists polls, Forall not_ready polls /\
       (tr = polls ++ [EvStatus "Ready"%string] \/
        exists e tr', tr = polls ++ EvException e :: tr' /\ mcr_trace d tr')).
Proof.
  induction rs as [| r rs' [IHm IHp]].
  - split; intros tr rest H; discriminate H.
  - split.
    + intros tr rest H. simpl in H. destruct r as [x | e].
      * case_eq (mcr_poll d rs'); intros tr0 rest0 E; rewrite E in H. injection H as <- ->.
        destruct (IHp _ _ E) as (polls & Hpolls & [-> | (e & tr' & -> & Htr')]).
        -- apply mcr_done. exact Hpolls.
        -- apply mcr_poll_failed; assumption.
      * case_eq (mcr_move d rs'); intros tr0 rest0 E; rewrite E in H. injection H as <- ->.
        apply mcr_move_failed. exact (IHm _ _ E).
    + intros tr rest H. simpl in H. destruct (GetCurrentStatus r) as [s | e].
      * destruct (String.eqb_spec s "Ready"%string) as [Hs | Hs].
        -- injection H as <- _. exists []. split; [constructor |]. left. subst s. reflexivity.
        -- case_eq (mcr_poll d rs'); intros tr0 rest0 E; rewrite E in H. injection H as <- ->.
           destruct (IHp _ _ E) as (polls & Hpolls & Hcase).
           exists (EvStatus s :: polls). split.
           ++ constructor; [exists s; split; [reflexivity | exact Hs] | exact Hpolls].
           ++ destruct Hcase as [-> | (e & tr' & -> & Htr')]; [left | right; exists e, tr'];
                simpl; auto.
      * case_eq (mcr_move d rs'); intros tr0 rest0 E; rewrite E in H. injection H as <- ->.
        exists []. split; [constructor |]. right. exists e, tr0. split; [reflexivity |].
        exact (IHm _ _ E).
Qed.

Lemma moves_app t1 t2 : moves (t1 ++ t2) = moves t1 ++ moves t2.
Proof. induction t1 as [| [] t1 IH]; simpl; try rewrite IH; reflexivity. Qed.

Lemma moves_not_ready polls : Forall not_ready polls -> moves polls = [].
Proof.
  induction 1 as [| ev polls (s & -> & _) _ IH]; [reflexivity |]. simpl. exact IH.
Qed.

Lemma mcr_trace_moves d tr :
  mcr_trace d tr -> (forall e, ~ In (EvException e) tr) -> moves tr = [d].
Proof.
  destruct 1 as [polls Hp | e tr _ | polls e tr _ _]; intros Hno.
  - simpl. rewrite moves_app, (moves_not_ready _ Hp). reflexivity.
  - exfalso. apply (Hno e). left. reflexivity.
  - exfalso. apply (Hno e). right. apply in_or_app. right. left. reflexivity.
Qed.

Lemma then_move_returns first k tr rest :
  then_move first k = (tr, Some rest) ->
  exists tr1 rs1 tr2, first = (tr1, Some rs1) /\ k rs1 = (tr2, Some rest) /\ tr = tr1 ++ tr2.
Proof.
  destruct first as [tr1 [rs1 |]]; simpl; [| discriminate].
  destruct (k rs1) as [tr2 rest2] eqn:E. intros H. injection H as <- ->.
  exists tr1, rs1, tr2. auto.
Qed.

(** Claim C4 (amended): whenever moveStage returns, its trace is, in clip
    mode, one completed moveAndCheckReady(stepSize), and otherwise three
    completed calls in sequence, for -dlpPumpingAction, stepSize and
    dlpPumpingAction; each call ends with a "Ready" status read before the
    next call starts, but an exception in a call retries it from its
    RelativeMove, so a sub-move can be issued more than once.  When no
    exception occurs, the moves issued are exactly [stepSize] in clip mode
    and exactly [-dlpPumpingAction; stepSize; dlpPumpingAction] otherwise. *)
Theorem C4_moveStage_sequence (stepSize : Z) (isClip : bool) (dlpPumpingAction : Z)
    (rs : list reply) (tr : list StageEv) (rest : list reply)
    (Hret : moveStage stepSize isClip dlpPumpingAction rs = (tr, Some rest)) :
  (isClip = true -> mcr_trace stepSize tr) /\
  (isClip = false -> exists t1 t2 t3, tr = t1 ++ t2 ++ t3 /\
     mcr_trace (-1 * dlpPumpingAction) t1 /\ mcr_trace stepSize t2 /\
     mcr_trace dlpPumpingAction t3) /\
  ((forall e, ~ In (EvException e) tr) ->
     moves tr = if isClip then [stepSize] else [-1 * dlpPumpingAction; stepSize; dlpPumpingAction]).
Proof.
  unfold moveStage in Hret. destruct isClip; simpl in Hret.
  - pose proof (proj1 (mcr_sound stepSize rs) _ _ Hret) as Ht.
    split; [auto |]. split; [discriminate |]. intros Hno. exact (mcr_trace_moves _ _ Ht Hno).
  - apply then_move_returns in Hret as (t1 & rs1 & tr23 & H1 & H23 & ->).
    apply then_move_returns in H23 as (t2 & rs2 & t3 & H2 & H3 & ->).
    pose proof (proj1 (mcr_sound _ rs) _ _ H1) as Ht1.
    pose proof (proj1 (mcr_sound _ rs1) _ _ H2) as Ht2.
    pose proof (proj1 (mcr_sound _ rs2) _ _ H3) as Ht3.
    split; [discriminate |]. split; [intros _; exists t1, t2, t3; auto |].
    intros Hno.
    rewrite !moves_app.
    rewrite (mcr_trace_moves _ _ Ht1), (mcr_trace_moves _ _ Ht2), (mcr_trace_moves _ _ Ht3);
      [reflexivity | ..];
      intros e He; apply (Hno e); rewrite ?in_app_iff; tauto.
Qed.

Lemma C4_moveStage_sequence_witness :
  let rs := [Returns RecvTimeout; Returns ready_line; Returns RecvTimeout; Returns ready_line;
             Returns RecvTimeout; Returns ready_line] in
  moveStage 5 false 2 rs = (fst (moveStage 5 false 2 rs), Some []) /\
  moves (fst (moveStage 5 false 2 rs)) = [-1 * 2; 5; 2].
Proof.
  intros rs. split; [reflexivity |].
  apply (proj2 (proj2 (C4_moveStage_sequence 5 false 2 rs _ [] eq_refl))).
  intros e H. vm_compute in H. intuition discriminate.
Defined.

End MoveStageProofs.

Module WaitProofs.
Import WaitForPosition WaitObs.
Local Open Scope list_scope.

Section Props.
Variable Pos : Type.
Variable stof : string -> option Pos.
Variable within_tolerance : Pos -> bool.
Variable targetPosition : Pos.
Variable timeout_s : nat.

Local Abbreviation wloop := (loop Pos stof within_tolerance targetPosition timeout_s).
Local Abbreviation wait := (waitForPosition Pos stof within_tolerance targetPosition timeout_s).
Local Abbreviation ms := (iter_ms Pos stof within_tolerance).
Local Abbreviation matches := (iter_matches Pos stof within_tolerance).

(** Claim C9 (failing input): waitForPosition throws.  controller.AbsoluteMove
    sits after the try/catch, so an exception it raises (here on the first
    iteration, after GetPosition itself already threw and was caught) leaves
    waitForPosition instead of being handled. *)
Theorem C9_absolute_move_exception_escapes (it : Iter) (rest : list Iter) (e : cpp_exception)
    (Hthrow : absolute_move it = Throws e) :
  wait (it :: rest) = ([EvGetPosition Pos], WThrew e).
Proof.
  unfold waitForPosition. simpl.
  destruct (query_position Pos stof within_tolerance it 50). rewrite Hthrow. reflexivity.
Qed.

Lemma query_position_time it t :
  snd (query_position Pos stof within_tolerance it t) = t + (snd (query_position Pos stof within_tolerance it 0)).
Proof.
  unfold query_position. destruct (get_position it) as [pos |]; [| simpl; lia].
  destruct (Nat.leb 9 _); [| simpl; lia].
  destruct (stof _); simpl; lia.
Qed.

Lemma query_position_fst it t t0 :
  fst (query_position Pos stof within_tolerance it t) = fst (query_position Pos stof within_tolerance it t0).
Proof.
  unfold query_position. destruct (get_position it) as [pos |]; [| reflexivity].
  destruct (Nat.leb 9 _); [| reflexivity]. destruct (stof _); reflexivity.
Qed.

(** One iteration that neither throws nor stops: the loop goes on after
    [elapsed + iter_ms it] milliseconds. *)
Lemma loop_cons_continue it rest elapsed u
    (Hmove : absolute_move it = Returns u)
    (Hto : checkTimeout (elapsed + ms it) timeout_s = false)
    (Hm : matches it = false) :
  wloop (it :: rest) elapsed =
    (EvGetPosition Pos :: EvAbsoluteMove Pos targetPosition :: fst (wloop rest (elapsed + ms it)),
     snd (wloop rest (elapsed + ms it))).
Proof.
  simpl. unfold iter_ms, iter_matches in *.
  pose proof (query_position_time it (elapsed + 50)) as Ht.
  pose proof (query_position_time it 50) as Ht50.
  pose proof (query_position_fst it (elapsed + 50) 0) as Hf.
  destruct (query_position Pos stof within_tolerance it (elapsed + 50)) as [pm t] eqn:E.
  simpl in Ht, Hf. rewrite Hmove.
  replace (t + io_ms it) with (elapsed + (snd (query_position Pos stof within_tolerance it 50) + io_ms it)) by lia.
  rewrite Hto, Hf, Hm. destruct (wloop rest _); reflexivity.
Qed.

Lemma checkTimeout_false_iff t : checkTimeout t timeout_s = false <-> t < 1000 * timeout_s.
Proof.
  unfold checkTimeout. rewrite Nat.leb_gt. split; intros H.
  - destruct (Nat.lt_ge_cases t (1000 * timeout_s)) as [| Hge]; [assumption |].
    exfalso. assert (timeout_s <= t / 1000) by (apply Nat.div_le_lower_bound; lia). lia.
  - apply Nat.Div0.div_lt_upper_bound; lia.
Qed.

Lemma iter_ms_ge it : 50 <= ms it.
Proof. unfold iter_ms. rewrite query_position_time. lia. Qed.

(** When no AbsoluteMove throws and the iterations run at least until the
    timeout, the loop returns (whether the position matched or not). *)
Lemma loop_returns iters elapsed
    (Hne : iters <> [])
    (Hok : Forall (fun it => absolute_move it = Returns tt) iters)
    (Hlong : 1000 * timeout_s <= elapsed + 50 * length iters) :
  exists tr b, wloop iters elapsed = (tr, WReturned b).
Proof.
  revert elapsed Hlong. induction iters as [| it rest IH]; intros elapsed Hlong; [congruence |].
  inversion Hok as [| ? ? Hmove Hok']; subst.
  destruct (checkTimeout (elapsed + ms it) timeout_s) eqn:Hto.
  - simpl. unfold iter_ms in Hto.
    pose proof (query_position_time it (elapsed + 50)) as Ht.
    pose proof (query_position_time it 50) as Ht50.
    destruct (query_position Pos stof within_tolerance it (elapsed + 50)) as [pm t] eqn:E.
    simpl in Ht. rewrite Hmove.
    replace (t + io_ms it) with (elapsed + (snd (query_position Pos stof within_tolerance it 50) + io_ms it)) by lia.
    rewrite Hto. eauto.
  - destruct (matches it) eqn:Hm.
    + simpl. unfold iter_ms, iter_matches in *.
      pose proof (query_position_time it (elapsed + 50)) as Ht.
      pose proof (query_position_time it 50) as Ht50.
      pose proof (query_position_fst it (elapsed + 50) 0) as Hf.
      destruct (query_position Pos stof within_tolerance it (elapsed + 50)) as [pm t] eqn:E.
      simpl in Ht, Hf. rewrite Hmove.
      replace (t + io_ms it) with (elapsed + (snd (query_position Pos stof within_tolerance it 50) + io_ms it)) by lia.
      rewrite Hto, Hf, Hm. eauto.
    + rewrite (loop_cons_continue it rest elapsed tt Hmove Hto Hm).
      apply checkTimeout_false_iff in Hto.
      destruct rest as [| it' rest'].
      * simpl in Hlong. pose proof (iter_ms_ge it). lia.
      * destruct (IH ltac:(discriminate) Hok' (elapsed + ms it)) as (tr & b & Hr).
        { simpl in *. pose proof (iter_ms_ge it). lia. }
        rewrite Hr. simpl. eauto.
Qed.


(** A reading within tolerance, taken before the timeout, makes the loop
    return having matched. *)
Lemma loop_converges pre it post elapsed
    (Hok : Forall (fun it => absolute_move it = Returns tt) (pre ++ [it]))
    (Hm : matches it = true)
    (Hin : elapsed + sum_ms Pos stof within_tolerance (pre ++ [it]) < 1000 * timeout_s) :
  exists tr, wloop (pre ++ it :: post) elapsed = (tr, WReturned true).
Proof.
  revert elapsed Hin. induction pre as [| x pre IH]; intros elapsed Hin.
  - simpl in *. inversion Hok as [| ? ? Hmove _]; subst.
    unfold iter_ms, iter_matches in *.
    pose proof (query_position_time it (elapsed + 50)) as Ht.
    pose proof (query_position_time it 50) as Ht50.
    pose proof (query_position_fst it (elapsed + 50) 0) as Hf.
    destruct (query_position Pos stof within_tolerance it (elapsed + 50)) as [pm t] eqn:E.
    simpl in Ht, Hf. rewrite Hmove.
    destruct (checkTimeout (t + io_ms it) timeout_s) eqn:Hto.
    + apply Bool.not_false_iff_true in Hto. exfalso. apply Hto.
      apply checkTimeout_false_iff. lia.
    + rewrite Hf, Hm. eauto.
  - simpl in Hok. inversion Hok as [| ? ? Hmove Hok']; subst.
    assert (Hto : checkTimeout (elapsed + ms x) timeout_s = false).
    { apply checkTimeout_false_iff. simpl in Hin. lia. }
    destruct (matches x) eqn:Hmx.
    + simpl. unfold iter_ms, iter_matches in *.
      pose proof (query_position_time x (elapsed + 50)) as Ht.
      pose proof (query_position_time x 50) as Ht50.
      pose proof (query_position_fst x (elapsed + 50) 0) as Hf.
      destruct (query_position Pos stof within_tolerance x (elapsed + 50)) as [pm t] eqn:E.
      simpl in Ht, Hf. rewrite Hmove.
      replace (t + io_ms x) with (elapsed + (snd (query_position Pos stof within_tolerance x 50) + io_ms x)) by lia.
      rewrite Hto, Hf, Hmx. eauto.
    + simpl app. rewrite (loop_cons_continue x _ elapsed tt Hmove Hto Hmx).
      destruct (IH Hok' (elapsed + ms x)) as (tr & Hr).
      { simpl in Hin. lia. }
      rewrite Hr. simpl. eauto.
Qed.

(** A loop that returns has issued, on every iteration, GetPosition followed
    by AbsoluteMove(targetPosition). *)
Lemma loop_returned_trace iters elapsed tr b :
  wloop iters elapsed = (tr, WReturned b) ->
  exists n, tr = concat (repeat [EvGetPosition Pos; EvAbsoluteMove Pos targetPosition] (S n)).
Proof.
  revert elapsed tr. induction iters as [| it rest IH]; intros elapsed tr H; [discriminate |].
  simpl in H. destruct (query_position Pos stof within_tolerance it (elapsed + 50)) as [pm t].
  destruct (absolute_move it); [| discriminate].
  destruct (checkTimeout _ _); [injection H as <- _; exists 0; reflexivity |].
  destruct pm; [injection H as <- _; exists 0; reflexivity |].
  destruct (wloop rest (t + io_ms it)) as [tr' e] eqn:E. injection H as <- ->.
  destruct (IH _ _ E) as (n & ->). exists (S n). reflexivity.
Qed.

End Props.

Lemma C9_absolute_move_exception_escapes_witness :
  let it := {| get_position := Throws serial_exception;
               absolute_move := Throws serial_exception; io_ms := 3 |} in
  absolute_move it = Throws serial_exception /\
  waitForPosition Z (fun _ => Some 0%Z) (fun _ => true) 0%Z 5 [it]
    = ([EvGetPosition Z], WThrew serial_exception).
Proof.
  intros it. split; [reflexivity |].
  apply (C9_absolute_move_exception_escapes Z (fun _ => Some 0%Z) (fun _ => true) 0%Z 5
           it [] serial_exception).
  reflexivity.
Defined.

End WaitProofs.

Module GateProofs.
Import Settings PrintLoop GateMonitor.
Local Open Scope Z_scope.
Local Open Scope list_scope.


Lemma mon_run_app m a b :
  mon_run m (a ++ b) = match mon_run m a with Some m' => mon_run m' b | None => None end.
Proof.
  revert m. induction a as [| ev a IH]; intros m; simpl; [reflexivity |].
  destruct (mon_step m ev); [apply IH | reflexivity].
Qed.

Lemma inv_init : inv init_state.
Proof. reflexivity. Qed.

Lemma light_ok th maxCount il t s :
  displayImage s = true ->
  mon_run (alpha th s) (snd (light_branch maxCount il t s)) = Some (alpha th (fst (light_branch maxCount il t s)))
  /\ (inv s -> inv (fst (light_branch maxCount il t s))).
Proof.
  intros Hd. unfold light_branch, alpha.
  destruct (maxCount <=? imageDisplayCount s + 1); simpl; rewrite Hd; simpl; auto.
Qed.

Lemma dark_ok dd n t s :
  displayImage s = false -> inv s ->
  let '(s', evs, _) := dark_branch dd n t s in
  mon_run (alpha dd s) evs = Some (alpha dd s') /\ inv s'.
Proof.
  intros Hd Hinv. unfold inv in *.
  destruct s as [di idc cl iip cii cti nil inl ais istr dts]; simpl in *. subst.
  unfold dark_branch, alpha; simpl.
  destruct inl, istr, (move_ready t), (Nat.ltb (S cii) n), (dd <? now t - dts) eqn:E;
    simpl; rewrite ?E; simpl; auto.
Qed.

Lemma mon_run_setcurrent m v : mon_run m [EvSetCurrent v] = Some m.
Proof. reflexivity. Qed.


Lemma finish_iter_ok th s s' evs sw :
  mon_run (alpha th s) evs = Some (alpha th s') -> inv s' ->
  iter_ok th s (finish_iter s' evs sw).
Proof.
  intros H Hi. unfold finish_iter. destruct (allImagesShown s' && negb (displayImage s')); simpl.
  - rewrite mon_run_app, H. auto.
  - auto.
Qed.

Lemma mon_run_noop_prefix m (b : bool) :
  mon_run m (if b then [EvCloseWindow] else []) = Some m.
Proof. destruct b; reflexivity. Qed.

Lemma full_iter_ok p t s : inv s -> iter_ok (mindarktime p) s (full_iter p t s).
Proof.
  intros Hi. unfold full_iter.
  destruct (displayImage s) eqn:Hd.
  - destruct (abort t); simpl.
    + rewrite mon_run_app, mon_run_noop_prefix. reflexivity.
    + pose proof (light_ok (mindarktime p)
        (if inInitialPhase s then initialExposureCounter p else maxImageDisplayCount p)
        (Some (initialLayers p)) t s Hd) as [Hl Hli].
      destruct (light_branch _ _ t s) as [s' evs]. simpl in *.
      apply finish_iter_ok; [| auto].
      rewrite mon_run_app, mon_run_noop_prefix. exact Hl.
  - pose proof (dark_ok (mindarktime p) (nimages p) t s Hd Hi) as Hdk.
    destruct (dark_branch _ _ t s) as [[s' evs] sw]. destruct Hdk as [Hk Hki].
    apply finish_iter_ok; [| auto].
    rewrite mon_run_app, mon_run_noop_prefix. exact Hk.
Qed.


Lemma full_loop_ok p ticks : forall isOpen s, inv s ->
  mon_run (alpha (mindarktime p) s) (fst (full_loop p ticks isOpen s))
    = Some (alpha (mindarktime p) (loop_state (snd (full_loop p ticks isOpen s)))) /\
  inv (loop_state (snd (full_loop p ticks isOpen s))).
Proof.
  induction ticks as [| t ts IH]; intros isOpen s Hi; simpl.
  - destruct isOpen; simpl; auto.
  - destruct isOpen; simpl; [| auto].
    pose proof (full_iter_ok p t s Hi) as Hit.
    destruct (full_iter p t s) as [evs | s' evs | s' evs sw]; simpl in *.
    + auto.
    + exact Hit.
    + destruct Hit as [Hm Hi'].
      destruct (IH (negb (closed t)) s' Hi') as [Hm' Hi''].
      destruct (full_loop p ts (negb (closed t)) s') as [tr e]. simpl in *.
      rewrite mon_run_app, Hm. auto.
Qed.

Lemma scope_exit_ok m s : exists m', mon_run m (scope_exit s) = Some m'.
Proof. unfold scope_exit. destruct (isStageThreadRunning s); simpl; eauto. Qed.

Lemma shutdown_ok m s : exists m', mon_run m (shutdown s) = Some m'.
Proof. unfold shutdown. destruct (isStageThreadRunning s); simpl; eauto. Qed.

Lemma dyn_iter_ok n setting t s : inv s -> iter_ok (darkTime setting) s (dyn_iter n setting t s).
Proof.
  intros Hi. unfold dyn_iter.
  destruct (displayImage s) eqn:Hd.
  - destruct (abort t); simpl; [reflexivity |].
    pose proof (light_ok (darkTime setting) (exposureTime setting) None t s Hd) as [Hl Hli].
    destruct (light_branch _ _ t s) as [s' evs]. simpl in *.
    apply finish_iter_ok; auto.
  - pose proof (dark_ok (darkTime setting) n t s Hd Hi) as Hdk.
    destruct (dark_branch _ _ t s) as [[s' evs] sw]. destruct Hdk as [Hk Hki].
    apply finish_iter_ok; [| auto].
    rewrite mon_run_app, Hk. destruct sw; reflexivity.
Qed.


Lemma dyn_group_ok n setting layerCount ticks : forall lc s, inv s ->
  mon_run (alpha (darkTime setting) s) (fst (dyn_group n setting layerCount ticks lc s))
    = Some (alpha (darkTime setting) (group_state (snd (dyn_group n setting layerCount ticks lc s)))) /\
  inv (group_state (snd (dyn_group n setting layerCount ticks lc s))).
Proof.
  induction ticks as [| t ts IH]; intros lc s Hi; simpl.
  - destruct (lc <=? layerCount); simpl; auto.
  - destruct (lc <=? layerCount); simpl; [| auto].
    pose proof (dyn_iter_ok n setting t s Hi) as Hit.
    destruct (dyn_iter n setting t s) as [evs | s' evs | s' evs sw]; simpl in *.
    + auto.
    + exact Hit.
    + destruct Hit as [Hm Hi'].
      destruct (IH (if sw then lc + 1 else lc) s' Hi') as [Hm' Hi''].
      destruct (dyn_group n setting layerCount ts _ s') as [tr e]. simpl in *.
      rewrite mon_run_app, Hm. auto.
Qed.

Lemma dyn_groups_ok n gs : forall ticks th s, inv s ->
  exists th', mon_run (alpha th s) (fst (dyn_groups n gs ticks s))
    = Some (alpha th' (group_state (snd (dyn_groups n gs ticks s)))) /\
  inv (group_state (snd (dyn_groups n gs ticks s))).
Proof.
  induction gs as [| [setting layerCount] gs IH]; intros ticks th s Hi; simpl.
  - exists th. auto.
  - pose proof (dyn_group_ok n setting layerCount ticks 0 s Hi) as [Hm Hi'].
    destruct (dyn_group n setting layerCount ticks 0 s) as [tr e]. simpl in *.
    destruct e as [s' | s' ts | s']; simpl in *.
    + exists (darkTime setting). split; [exact Hm | exact Hi'].
    + destruct (IH ts (darkTime setting) s' Hi') as (th' & Hm' & Hi'').
      destruct (dyn_groups n gs ts s') as [tr' e']. simpl in *.
      exists th'. split; [| exact Hi''].
      change (mon_run (alpha (darkTime setting) s) (tr ++ tr') = Some (alpha th' (group_state e'))).
      rewrite mon_run_app, Hm. exact Hm'.
    + exists (darkTime setting). split; [exact Hm | exact Hi'].
Qed.

(** Claim C3: in every run of RunFull, the event trace, shutdown included,
    keeps the gate discipline of [gate_ok] with the dark duration
    mindarktime: the loop-start state has no move in flight and the light
    phase on; a move is launched only when none is in flight; a swap (and
    so the next exposure) happens only when the dark phase began more than
    mindarktime earlier, the next image was loaded since the last swap and
    the launched move was joined; no image is presented in a dark phase.
    The same holds for every run of RunFullDynamic, where the dark duration
    is that of the group whose settings were applied last. *)
Theorem C3_runs_keep_gate_discipline (p : FullParams) (n : nat)
    (orderedSettings : list (LayerSettings * Z)) (ticks : list Tick) (th : Z) :
  gate_ok (mindarktime p) (fst (RunFull p ticks)) = true /\
  gate_ok th (fst (RunFullDynamic n orderedSettings ticks)) = true.
Proof.
  split.
  - unfold gate_ok, RunFull.
    pose proof (full_loop_ok p ticks true init_state inv_init) as [Hm _].
    change {| in_flight := false; loaded := false; dark := false; dark_t0 := 0;
              threshold := mindarktime p |} with (alpha (mindarktime p) init_state).
    destruct (full_loop p ticks true init_state) as [tr e]. simpl in Hm.
    destruct e as [s | s | s]; simpl in *; rewrite ?mon_run_app, ?Hm.
    + destruct (scope_exit_ok (alpha (mindarktime p) s) s) as [m' ->]. reflexivity.
    + destruct (shutdown_ok (alpha (mindarktime p) s) s) as [m' ->]. reflexivity.
    + reflexivity.
  - unfold gate_ok, RunFullDynamic.
    destruct (dyn_groups_ok n orderedSettings ticks th init_state inv_init) as (th' & Hm & _).
    change {| in_flight := false; loaded := false; dark := false; dark_t0 := 0;
              threshold := th |} with (alpha th init_state).
    destruct (dyn_groups n orderedSettings ticks init_state) as [tr e]. simpl in Hm.
    destruct e as [s | s ts | s]; simpl in *; rewrite ?mon_run_app, ?Hm.
    + destruct (scope_exit_ok (alpha th' s) s) as [m' ->]. reflexivity.
    + destruct (shutdown_ok (alpha th' s) s) as [m' ->]. reflexivity.
    + reflexivity.
Qed.

(** The discipline is not vacuous: a swap before the dark duration has
    elapsed, a swap with nothing loaded, and a second launch while a move is
    in flight are all rejected. *)
Lemma gate_ok_rejects_violations :
  (gate_ok 100 [EvPresentImage 0; EvDarkStart 0; EvLoadTexture 1 1; EvSwap 50] = false) /\
  (gate_ok 100 [EvPresentImage 0; EvDarkStart 0; EvSwap 500] = false) /\
  (gate_ok 100 [EvDarkStart 0; EvLaunchMove; EvLoadTexture 1 1; EvSwap 500] = false) /\
  (gate_ok 100 [EvLaunchMove; EvLaunchMove] = false) /\
  (gate_ok 100 [EvPresentImage 0; EvDarkStart 0; EvLaunchMove; EvLoadTexture 1 1;
                EvJoinMove; EvSwap 500; EvPresentImage 1] = true).
Proof. repeat split; reflexivity. Qed.

End GateProofs.

Module RunProofs.
Import Settings PrintLoop RunObs.
Local Open Scope Z_scope.
Local Open Scope list_scope.

Ltac split_ifs :=
  repeat match goal with
         | |- context [if ?b then _ else _] => destruct b
         end.


(** Claim C1 (failing input): five layers, the abort flag set from frame
    12 on, when layer 3's light phase starts.  RunFull logs the abort and
    returns: no final GetPosition, no Home and no SMC100CClose follow the
    abort; the only action left is the destruction of the controller at the
    end of the function's scope. *)
Lemma C1_abort_skips_home :
  RunFull printP (abort_ticks 12 40)
  = ([EvPresentImage 0; EvPresentImage 0; EvPresentImage 0; EvPresentImage 0; EvPresentImage 0;
      EvGetPosition; EvDarkStart 5000; EvPresentBlank; EvLaunchMove; EvLoadTexture 1 1;
      EvJoinMove; EvSwap 6000; EvPresentBlank; EvPresentBlank;
      EvPresentImage 1; EvPresentImage 1; EvPresentImage 1; EvPresentImage 1; EvPresentImage 1;
      EvGetPosition; EvDarkStart 11000; EvPresentBlank; EvLaunchMove; EvLoadTexture 0 2;
      EvJoinMove; EvSwap 12000; EvPresentBlank; EvPresentBlank;
      EvLogAbort; EvControllerDestroyed], RAborted)
  /\ existsb shutdown_action (fst (RunFull printP (abort_ticks 12 40))) = false.
Proof. split; vm_compute; reflexivity. Qed.

Lemma existsb_shutdown_app a b :
  existsb shutdown_action (a ++ b) = existsb shutdown_action a || existsb shutdown_action b.
Proof. apply existsb_app. Qed.

Lemma full_iter_events p t s :
  match full_iter p t s with
  | IAbort evs => evs = (if closed t then [EvCloseWindow] else []) ++ [EvLogAbort] /\ displayImage s = true
  | IBreak _ evs | ICont _ evs _ => existsb shutdown_action evs = false
  end.
Proof.
  unfold full_iter, light_branch, dark_branch, finish_iter.
  destruct (displayImage s) eqn:Hd; [destruct (abort t); [auto |] |];
    split_ifs; simpl; rewrite ?existsb_shutdown_app; split_ifs; reflexivity.
Qed.

Lemma full_loop_aborted p ticks : forall isOpen s tr s',
  full_loop p ticks isOpen s = (tr, LAborted s') ->
  exists pre, tr = pre ++ [EvLogAbort] /\ displayImage s' = true /\
              existsb shutdown_action tr = false.
Proof.
  induction ticks as [| t ts IH]; intros isOpen s tr s' H; simpl in H.
  - destruct isOpen; discriminate.
  - destruct isOpen; simpl in H; [| discriminate].
    pose proof (full_iter_events p t s) as Hev.
    destruct (full_iter p t s) as [evs | s1 evs | s1 evs sw].
    + injection H as <- <-. destruct Hev as [-> Hd].
      exists (if closed t then [EvCloseWindow] else []). split; [reflexivity |]. split; [exact Hd |].
      destruct (closed t); reflexivity.
    + discriminate.
    + destruct (full_loop p ts (negb (closed t)) s1) as [tr1 e] eqn:E.
      injection H as <- ->.
      destruct (IH _ _ _ _ E) as (pre & -> & Hd & Hno).
      exists (evs ++ pre). split; [rewrite app_assoc; reflexivity |]. split; [exact Hd |].
      rewrite existsb_shutdown_app, Hev. exact Hno.
Qed.

(** Claim C1 (code bug): every run of RunFull that ends by the abort ends
    with the abort logged at the top of a light-phase iteration, followed
    only by the scope exit: the wait of the std::future destructor for a
    move still running, then the destruction of the controller.  No Home and
    no SMC100CClose occur anywhere in the run, nor any stage action after the
    abort. *)
Theorem C1_abort_returns_without_shutdown (p : FullParams) (ticks : list Tick) (tr : list Ev)
    (Hrun : RunFull p ticks = (tr, RAborted)) :
  exists pre s,
    tr = pre ++ EvLogAbort ::
           (if isStageThreadRunning s then [EvFutureDestroyed] else []) ++ [EvControllerDestroyed] /\
    displayImage s = true /\
    existsb shutdown_action tr = false.
Proof.
  unfold RunFull in Hrun.
  destruct (full_loop p ticks true init_state) as [tr0 e] eqn:E.
  destruct e as [s | s | s]; try discriminate.
  injection Hrun as <-.
  destruct (full_loop_aborted p ticks true init_state tr0 s E) as (pre & -> & Hd & Hno).
  exists pre, s. split; [| split; [exact Hd |]].
  - unfold scope_exit. rewrite <- app_assoc. reflexivity.
  - rewrite existsb_shutdown_app, Hno. unfold scope_exit. destruct (isStageThreadRunning s); reflexivity.
Qed.

Lemma C1_abort_returns_without_shutdown_witness :
  RunFull printP (abort_ticks 12 40) = (fst (RunFull printP (abort_ticks 12 40)), RAborted) /\
  exists pre s,
    fst (RunFull printP (abort_ticks 12 40)) = pre ++ EvLogAbort ::
           (if isStageThreadRunning s then [EvFutureDestroyed] else []) ++ [EvControllerDestroyed] /\
    displayImage s = true /\
    existsb shutdown_action (fst (RunFull printP (abort_ticks 12 40))) = false.
Proof.
  split; [vm_compute; reflexivity |].
  apply (C1_abort_returns_without_shutdown printP (abort_ticks 12 40)).
  vm_compute. reflexivity.
Defined.


(** Claim C2 (failing input): the table [(S1, 1); (S2, 1)] with eight images
    and a stage that is always ready.  Each group prints two layers instead
    of one: while (layercounter <= layerCount) runs layerCount + 1 cycles. *)
Theorem C2_group_prints_extra_layer :
  settings_log (fst (RunFullDynamic 8 [(S1, 1); (S2, 1)] (ready_ticks 200)))
    = [EvApplySettings S1; EvPrintedLayer S1; EvPrintedLayer S1;
       EvApplySettings S2; EvPrintedLayer S2; EvPrintedLayer S2]
  /\ snd (RunFullDynamic 8 [(S1, 1); (S2, 1)] (ready_ticks 200)) = RFinished.
Proof. split; vm_compute; reflexivity. Qed.

Lemma count_printed_app a b : count_printed (a ++ b) = (count_printed a + count_printed b)%nat.
Proof. induction a as [| [] a IH]; simpl; rewrite ?IH; reflexivity. Qed.

Lemma dyn_iter_printed n setting t s :
  match dyn_iter n setting t s with
  | ICont _ evs sw => count_printed evs = if sw then 1%nat else 0%nat
  | _ => True
  end.
Proof.
  unfold dyn_iter, light_branch, dark_branch, finish_iter.
  destruct (displayImage s) eqn:Hd; [destruct (abort t); [exact I |] |];
    split_ifs; simpl; rewrite ?count_printed_app; simpl; split_ifs; try exact I; reflexivity.
Qed.

(** A group that ends neither by the abort nor by the all-images break
    prints layerCount + 1 layers (counted from layercounter = 0). *)
Lemma dyn_group_printed n setting layerCount ticks : forall lc s tr s' rest,
  lc <= layerCount + 1 ->
  dyn_group n setting layerCount ticks lc s = (tr, GDone s' rest) ->
  Z.of_nat (count_printed tr) = layerCount + 1 - lc \/
  (allImagesShown s' = true /\ displayImage s' = false).
Proof.
  induction ticks as [| t ts IH]; intros lc s tr s' rest Hlc H; simpl in H.
  - destruct (Z.leb_spec lc layerCount); [discriminate |].
    injection H as <- <- _. left. simpl. lia.
  - destruct (Z.leb_spec lc layerCount); [| injection H as <- <- _; left; simpl; lia].
    pose proof (dyn_iter_printed n setting t s) as Hp.
    destruct (dyn_iter n setting t s) as [evs | s1 evs | s1 evs sw] eqn:Ei.
    + discriminate.
    + injection H as <- <- _. right.
      unfold dyn_iter, finish_iter in Ei.
      destruct (displayImage s); [destruct (abort t) |].
      * discriminate.
      * destruct (light_branch _ _ t s) as [s2 evs2].
        destruct (allImagesShown s2 && negb (displayImage s2)) eqn:Hb; [| discriminate].
        injection Ei as <- _. apply andb_prop in Hb as [H1 H2]. split; [exact H1 | now destruct (displayImage s2)].
      * destruct (dark_branch _ _ t s) as [[s2 evs2] sw2].
        destruct (allImagesShown s2 && negb (displayImage s2)) eqn:Hb; [| discriminate].
        injection Ei as <- _. apply andb_prop in Hb as [H1 H2]. split; [exact H1 | now destruct (displayImage s2)].
    + destruct (dyn_group n setting layerCount ts (if sw then lc + 1 else lc) s1) as [tr1 e] eqn:E.
      injection H as <- ->.
      destruct (IH (if sw then lc + 1 else lc) s1 tr1 s' rest) as [Hc | Hb].
      { destruct sw; lia. }
      { exact E. }
      * left. rewrite count_printed_app, Nat2Z.inj_add, Hc, Hp. destruct sw; simpl; lia.
      * right. exact Hb.
Qed.

End RunProofs.

Module ReadProofs.
Import SMC100C ReadString ReadObs.
Local Open Scope list_scope.

Lemma ascii_eqb_true a b : Ascii.eqb a b = true <-> a = b.
Proof. apply Ascii.eqb_eq. Qed.

Lemma copy_chunk_none fc buf received received' :
  copy_chunk fc buf received = (received', None) ->
  received' = received ++ buf /\ ~ In fc buf.
Proof.
  revert received. induction buf as [| b buf IH]; intros received H; simpl in H.
  - injection H as <-. rewrite app_nil_r. split; [reflexivity | intros []].
  - destruct (Ascii.eqb b fc) eqn:E; [discriminate |].
    destruct (IH _ H) as [-> Hn]. split.
    + rewrite <- app_assoc. reflexivity.
    + intros [-> | Hin]; [| exact (Hn Hin)].
      rewrite (proj2 (ascii_eqb_true fc fc) eq_refl) in E. discriminate.
Qed.

Lemma copy_chunk_some fc buf received received' lost :
  copy_chunk fc buf received = (received', Some lost) ->
  exists pre, buf = pre ++ fc :: lost /\ ~ In fc pre /\ received' = received ++ pre ++ [fc].
Proof.
  revert received. induction buf as [| b buf IH]; intros received H; simpl in H; [discriminate |].
  destruct (Ascii.eqb b fc) eqn:E.
  - apply ascii_eqb_true in E as ->. injection H as <- <-.
    exists []. split; [reflexivity |]. split; [intros [] | reflexivity].
  - destruct (IH _ H) as (pre & -> & Hn & ->). exists (b :: pre). split; [reflexivity |]. split.
    + intros [-> | Hin]; [| exact (Hn Hin)].
      rewrite (proj2 (ascii_eqb_true fc fc) eq_refl) in E. discriminate.
    + rewrite <- !app_assoc. reflexivity.
Qed.

Lemma arrivals_cons it iters k :
  arrivals (it :: iters) (S k) = arrived it ++ arrivals iters k.
Proof. reflexivity. Qed.

Lemma arrivals_one it iters : arrivals (it :: iters) 1 = arrived it.
Proof. unfold arrivals. simpl. apply app_nil_r. Qed.

Lemma rs_loop_post fc maxNb tmo iters : forall port received,
  length received <= maxNb ->
  rs_post fc maxNb iters port received (rs_loop fc maxNb tmo iters port received).
Proof.
  induction iters as [| it rest IH]; intros port received Hlen; simpl.
  - destruct (Nat.ltb (length received) maxNb) eqn:Hlt; simpl; [exact I |].
    apply Nat.ltb_ge in Hlt. exists [], 0. rewrite app_nil_r. unfold arrivals. simpl.
    rewrite app_nil_r. repeat split; try reflexivity; [intros [] | lia].
  - destruct (Nat.ltb (length received) maxNb) eqn:Hlt.
    2:{ apply Nat.ltb_ge in Hlt. exists [], 0. rewrite app_nil_r. unfold arrivals. simpl.
        rewrite app_nil_r. repeat split; try reflexivity; [intros [] | lia]. }
    apply Nat.ltb_lt in Hlt.
    destruct (Nat.ltb tmo (elapsed_ms it)).
    { simpl. exists [], 1. rewrite arrivals_one, !app_nil_r.
      repeat split; try reflexivity; try (intros []). exact Hlt. }
    destruct (Nat.eqb (length (port ++ arrived it)) 0).
    { pose proof (IH (port ++ arrived it) received Hlen) as H.
      destruct (rs_loop fc maxNb tmo rest (port ++ arrived it) received); simpl in H |- *;
        try exact I;
        [destruct H as (body & k & H1 & H2 & H3 & H4) | destruct H as (body & k & H1 & H2 & H3 & H4)
        | destruct H as (body & k & H1 & H2 & H3 & H4)];
        exists body, (S k); repeat split; try assumption; rewrite arrivals_cons, (app_assoc port); assumption. }
    set (port1 := port ++ arrived it).
    set (b := Nat.min (length port1) (maxNb - length received)).
    assert (Hfl : length (firstn b port1) <= maxNb - length received).
    { rewrite length_firstn. unfold b. lia. }
    pose proof (firstn_skipn b port1) as Hsplit.
    destruct (copy_chunk fc (firstn b port1) received) as [received' [lost |]] eqn:Hc.
    + destruct (copy_chunk_some _ _ _ _ _ Hc) as (pre & Hpre & Hn & ->).
      exists pre, 1. rewrite arrivals_one.
      fold port1. split; [reflexivity |]. split; [exact Hn |]. split.
      * rewrite Hpre, length_app in Hfl. simpl in Hfl. rewrite !length_app. simpl. lia.
      * rewrite <- Hsplit at 1. rewrite Hpre, <- !app_assoc. reflexivity.
    + destruct (copy_chunk_none _ _ _ _ Hc) as [-> Hn].
      assert (Hlen' : length (received ++ firstn b port1) <= maxNb) by (rewrite length_app; lia).
      pose proof (IH (skipn b port1) _ Hlen') as H.
      destruct (rs_loop fc maxNb tmo rest (skipn b port1) (received ++ firstn b port1)); simpl in H |- *;
        try exact I.
      * destruct H as (body & k & H1 & H2 & H3 & H4).
        exists (firstn b port1 ++ body), (S k). rewrite arrivals_cons, (app_assoc port). fold port1.
        repeat split.
        -- rewrite H1, <- !app_assoc. reflexivity.
        -- intros Hin. apply in_app_or in Hin as [Hin | Hin]; [exact (Hn Hin) | exact (H2 Hin)].
        -- exact H3.
        -- rewrite <- Hsplit at 1. rewrite <- app_assoc, H4, <- !app_assoc. reflexivity.
      * destruct H as (body & k & H1 & H2 & H3 & H4).
        exists (firstn b port1 ++ body), (S k). rewrite arrivals_cons, (app_assoc port). fold port1.
        repeat split.
        -- rewrite H1, <- !app_assoc. reflexivity.
        -- intros Hin. apply in_app_or in Hin as [Hin | Hin]; [exact (Hn Hin) | exact (H2 Hin)].
        -- exact H3.
        -- rewrite <- Hsplit at 1. rewrite <- app_assoc, H4, <- !app_assoc. reflexivity.
      * destruct H as (body & k & H1 & H2 & H3 & H4).
        exists (firstn b port1 ++ body), (S k). rewrite arrivals_cons, (app_assoc port). fold port1.
        repeat split.
        -- rewrite H1, <- !app_assoc. reflexivity.
        -- intros Hin. apply in_app_or in Hin as [Hin | Hin]; [exact (Hn Hin) | exact (H2 Hin)].
        -- exact H3.
        -- rewrite <- Hsplit at 1. rewrite <- app_assoc, H4, <- !app_assoc. reflexivity.
Qed.

Lemma readString_post fc maxNb tmo port iters :
  rs_post fc maxNb iters port [] (readString fc maxNb tmo port iters).
Proof. apply rs_loop_post. simpl. lia. Qed.

(** readString returning the line count: the received bytes end with the
    final char and hold it nowhere else, they and the dropped rest of the
    last read fit in maxNbBytes, and the bytes that reached the port in
    the passes consumed are exactly the received line, the dropped rest and
    what is left in the port. *)
Theorem readString_line_result fc maxNb tmo port iters received lost rest
    (H : readString fc maxNb tmo port iters = RSLine received lost rest) :
  (exists body, received = body ++ [fc] /\ ~ In fc body) /\
  length received + length lost <= maxNb /\
  exists k, port ++ arrivals iters k = received ++ lost ++ rest.
Proof.
  pose proof (readString_post fc maxNb tmo port iters) as P. rewrite H in P.
  destruct P as (body & k & -> & Hn & Hl & Ha). simpl in *.
  split; [eauto |]. split; [exact Hl |]. exists k. rewrite Ha, <- app_assoc. reflexivity.
Qed.

Lemma readString_line_result_witness :
  readString "010"%char 63 20 [] [{| elapsed_ms := 0; arrived := ["1"; "T"; "S"; "0"; "010"; "x"]%char |}]
    = RSLine ["1"; "T"; "S"; "0"; "010"]%char ["x"]%char [] /\
  ((exists body, ["1"; "T"; "S"; "0"; "010"]%char = body ++ ["010"%char] /\ ~ In "010"%char body) /\
   length ["1"; "T"; "S"; "0"; "010"]%char + length ["x"%char] <= 63 /\
   exists k, [] ++ arrivals [{| elapsed_ms := 0; arrived := ["1"; "T"; "S"; "0"; "010"; "x"]%char |}] k
             = ["1"; "T"; "S"; "0"; "010"]%char ++ ["x"%char] ++ []).
Proof.
  split; [reflexivity |].
  apply (readString_line_result "010"%char 63 20 []
           [{| elapsed_ms := 0; arrived := ["1"; "T"; "S"; "0"; "010"; "x"]%char |}]
           ["1"; "T"; "S"; "0"; "010"]%char ["x"]%char []).
  reflexivity.
Defined.

(** readString returning -3: exactly maxNbBytes bytes were received, none of
    them the final char, and every byte that reached the port is either
    received or still in the port. *)
Theorem readString_full_result fc maxNb tmo port iters received rest
    (H : readString fc maxNb tmo port iters = RSFull received rest) :
  length received = maxNb /\ ~ In fc received /\
  exists k, port ++ arrivals iters k = received ++ rest.
Proof.
  pose proof (readString_post fc maxNb tmo port iters) as P. rewrite H in P.
  destruct P as (body & k & -> & Hn & Hl & Ha). simpl in *. eauto.
Qed.

Lemma readString_full_result_witness :
  readString "010"%char 2 20 [] [{| elapsed_ms := 0; arrived := ["1"; "T"; "S"]%char |}]
    = RSFull ["1"; "T"]%char ["S"]%char /\
  (length ["1"; "T"]%char = 2 /\ ~ In "010"%char ["1"; "T"]%char /\
   exists k, [] ++ arrivals [{| elapsed_ms := 0; arrived := ["1"; "T"; "S"]%char |}] k
             = ["1"; "T"]%char ++ ["S"]%char).
Proof.
  split; [reflexivity |].
  apply (readString_full_result "010"%char 2 20 []
           [{| elapsed_ms := 0; arrived := ["1"; "T"; "S"]%char |}] ["1"; "T"]%char ["S"]%char).
  reflexivity.
Defined.

(** readString returning 0 (timeout): fewer than maxNbBytes bytes were
    received, none of them the final char, and every byte that reached the
    port is either received or still in the port. *)
Theorem readString_timeout_result fc maxNb tmo port iters received rest
    (H : readString fc maxNb tmo port iters = RSTimeout received rest) :
  length received < maxNb /\ ~ In fc received /\
  exists k, port ++ arrivals iters k = received ++ rest.
Proof.
  pose proof (readString_post fc maxNb tmo port iters) as P. rewrite H in P.
  destruct P as (body & k & -> & Hn & Hl & Ha). simpl in *. eauto.
Qed.

Lemma readString_timeout_result_witness :
  let iters := [{| elapsed_ms := 0; arrived := ["1"; "T"]%char |};
                {| elapsed_ms := 25; arrived := ["S"]%char |}] in
  readString "010"%char 63 20 [] iters = RSTimeout ["1"; "T"]%char ["S"]%char /\
  (length ["1"; "T"]%char < 63 /\ ~ In "010"%char ["1"; "T"]%char /\
   exists k, [] ++ arrivals iters k = ["1"; "T"]%char ++ ["S"]%char).
Proof.
  intros iters. split; [reflexivity |].
  apply (readString_timeout_result "010"%char 63 20 [] iters ["1"; "T"]%char ["S"]%char).
  reflexivity.
Defined.

Lemma readString_line_nonempty fc maxNb tmo port iters received lost rest :
  readString fc maxNb tmo port iters = RSLine received lost rest -> (0 < Z.of_nat (length received))%Z.
Proof.
  intros H. pose proof (readString_post fc maxNb tmo port iters) as P. rewrite H in P.
  destruct P as (body & k & -> & _). simpl. rewrite length_app. simpl. lia.
Qed.

(** GetCurrentStatus over the port: a reply cut by the 20 ms timeout reads as
    the string "Timeout", whose characters 7 and 8 do not exist, so the
    status is "Unknown Status Code: " with an empty code and no exception; a
    reply filling the 63-byte buffer reads as "Error", on which substr(7, 2)
    throws out_of_range; a line is decoded up to its first '\0'. *)
Theorem GetCurrentStatus_port_outcomes iters :
  match readString "010"%char 63 20 [] iters with
  | RSTimeout _ _ => GetCurrentStatus_port iters = Some (Returns "Unknown Status Code: "%string)
  | RSFull _ _ => GetCurrentStatus_port iters = Some (Throws out_of_range)
  | RSLine received _ _ => GetCurrentStatus_port iters = Some (decode_status (cstr received))
  | RSReading => GetCurrentStatus_port iters = None
  end.
Proof.
  unfold GetCurrentStatus_port, SerialRead_port.
  destruct (readString "010"%char 63 20 [] iters) as [received lost rest | | |] eqn:E;
    try reflexivity.
  cbn [readString_status].
  rewrite (proj2 (Z.ltb_lt _ _) (readString_line_nonempty _ _ _ _ _ _ _ _ E)). reflexivity.
Qed.

End ReadProofs.

Module WrapperProofs.
Import SMC100C ReadString Wrappers WireObs TableObs.
Local Open Scope string_scope.

(** With the address written, each setter of SMC100C sends one line: the
    address 1, the command's code, the parameter as std::to_string(float)
    prints it, and CR LF; Home sends 1OR and StopMotion 1ST with no
    parameter, and Home reports success. *)
Theorem setter_wire_lines float fi ff (zero p : float) :
  wire_line (RelativeMove float fi ff true p) = "1PR" ++ ff p ++ CRLF /\
  wire_line (AbsoluteMove float fi ff true p) = "1PA" ++ ff p ++ CRLF /\
  wire_line (SetVelocity float fi ff true p) = "1VA" ++ ff p ++ CRLF /\
  wire_line (SetAcceleration float fi ff true p) = "1AC" ++ ff p ++ CRLF /\
  wire_line (SetPositiveLimit float fi ff true p) = "1SR" ++ ff p ++ CRLF /\
  wire_line (SetNegativeLimit float fi ff true p) = "1SL" ++ ff p ++ CRLF /\
  wire_line (SetJerkTime float fi ff true p) = "1JR" ++ ff p ++ CRLF /\
  Home float fi ff zero true = (true, ["1"; "OR"; ""; CRLF]) /\
  wire_line (StopMotion float fi ff zero true) = "1ST" ++ CRLF.
Proof.
  unfold wire_line. simpl.
  repeat split; rewrite ?append_empty_r; reflexivity.
Qed.

(** The getters send <address><code>?\r\n whatever the formatters and the
    0.0 they pass, once the address was written in full; after a short
    address write SendCurrentCommand stops there.  Either way they return
    what SerialRead makes of the reply: the line received (up to a '\0'),
    "Timeout" or "Error". *)
Theorem getter_queries float fi ff (zero : float) aw iters :
  let reply :=
    match readString "010"%char 63 20 [] iters with
    | RSLine received _ _ => Some (cstr received)
    | RSTimeout _ _ => Some "Timeout"
    | RSFull _ _ => Some "Error"
    | RSReading => None
    end in
  GetPosition float fi ff zero aw iters =
    (if aw then ["1"; "TP"; "?"; CRLF] else ["1"], reply) /\
  GetVelocity float fi ff zero aw iters =
    (if aw then ["1"; "VA"; "?"; CRLF] else ["1"], reply) /\
  GetAcceleration float fi ff zero aw iters =
    (if aw then ["1"; "AC"; "?"; CRLF] else ["1"], reply) /\
  GetPositiveLimit float fi ff zero aw iters =
    (if aw then ["1"; "SR"; "?"; CRLF] else ["1"], reply) /\
  GetNegativeLimit float fi ff zero aw iters =
    (if aw then ["1"; "SL"; "?"; CRLF] else ["1"], reply).
Proof.
  intros reply.
  assert (Hr : option_map SerialRead (SerialRead_port [] iters) = reply).
  { unfold reply, SerialRead_port.
    destruct (readString "010"%char 63 20 [] iters) as [received lost rest | | |] eqn:E;
      try reflexivity.
    cbn [readString_status].
    rewrite (proj2 (Z.ltb_lt _ _) (ReadProofs.readString_line_nonempty _ _ _ _ _ _ _ _ E)). reflexivity. }
  unfold GetPosition, GetVelocity, GetAcceleration, GetPositiveLimit, GetNegativeLimit, query.
  rewrite Hr. destruct aw; repeat split.
Qed.

Lemma substring_0_0 s : String.substring 0 0 s = "".
Proof. destruct s; reflexivity. Qed.

(** Every command line SendCurrentCommand writes can be decoded: the two
    characters after the address are the code of exactly the command that
    SetCommand selected, whatever the parameter and the intent. *)
Theorem command_code_roundtrip float fi ff (ty : CommandType.t) (p : float) gs :
  lookup_code (String.substring 1 2
    (wire_line (snd (SendCurrentCommand float fi ff true (SetCommand float ty p gs)))))
    CommandLibrary = Some ty.
Proof.
  destruct ty, gs; unfold wire_line; simpl; rewrite ?substring_0_0; reflexivity.
Qed.

Lemma ConvertToErrorString_other (c : ascii) :
  ~ In c error_chars -> ConvertToErrorString c = "0".
Proof.
  intros H. destruct c as [[] [] [] [] [] [] [] []]; try reflexivity;
    exfalso; apply H; simpl; tauto.
Qed.

Lemma ConvertToErrorString_distinct_b :
  forallb (fun c1 => forallb (fun c2 =>
    implb (String.eqb (ConvertToErrorString c1) (ConvertToErrorString c2)) (Ascii.eqb c1 c2))
    error_chars) error_chars = true
  /\ forallb (fun c => negb (String.eqb (ConvertToErrorString c) "0")) error_chars = true.
Proof. split; vm_compute; reflexivity. Qed.

(** ConvertToErrorString gives the 20 error characters of the manual 20
    different messages, none of them "0", and every other character "0":
    the message determines the error character, and "0" means none. *)
Theorem ConvertToErrorString_injective :
  (forall c, ConvertToErrorString c = "0" <-> ~ In c error_chars) /\
  (forall c1 c2, ConvertToErrorString c1 = ConvertToErrorString c2 ->
     c1 = c2 \/ (~ In c1 error_chars /\ ~ In c2 error_chars)).
Proof.
  destruct ConvertToErrorString_distinct_b as [Hd H0].
  rewrite forallb_forall in Hd, H0.
  assert (Hiff : forall c, ConvertToErrorString c = "0" <-> ~ In c error_chars).
  { intros c. split.
    - intros Hc Hin. specialize (H0 c Hin). rewrite Hc in H0. discriminate.
    - apply ConvertToErrorString_other. }
  split; [exact Hiff |].
  intros c1 c2 Heq.
  destruct (in_dec ascii_dec c1 error_chars) as [H1 | H1];
  destruct (in_dec ascii_dec c2 error_chars) as [H2 | H2].
  - left. specialize (Hd c1 H1). rewrite forallb_forall in Hd. specialize (Hd c2 H2).
    rewrite Heq, String.eqb_refl in Hd. apply Ascii.eqb_eq. exact Hd.
  - exfalso. apply (proj1 (Hiff c1)); [| exact H1]. rewrite Heq. apply Hiff. exact H2.
  - exfalso. apply (proj1 (Hiff c2)); [| exact H2]. rewrite <- Heq. apply Hiff. exact H1.
  - right. split; assumption.
Qed.

End WrapperProofs.

Module SortProofs.
Import CustomSort SortObs.
Local Open Scope string_scope.

Lemma match_at_not_S c rest : c <> "S"%char -> match_at (String c rest) = None.
Proof.
  intros H. destruct c as [[] [] [] [] [] [] [] []]; try reflexivity. congruence.
Qed.

Lemma regex_search_cons c s :
  regex_search (String c s) =
    match match_at (String c s) with Some d => Some d | None => regex_search s end.
Proof. reflexivity. Qed.

Lemma regex_search_skip p s : no_S p = true -> regex_search (p ++ s) = regex_search s.
Proof.
  induction p as [| c p IH]; intros H; [reflexivity |].
  simpl in H. apply andb_prop in H as [Hc Hp].
  change ((String c p) ++ s) with (String c (p ++ s)).
  rewrite regex_search_cons, match_at_not_S.
  - exact (IH Hp).
  - intros ->. discriminate Hc.
Qed.

Lemma span_digits_app d c s :
  all_digits d = true -> is_digit c = false -> span_digits (d ++ String c s) = (d, String c s).
Proof.
  intros Hd Hc. induction d as [| x d IH]; simpl.
  - rewrite Hc. reflexivity.
  - simpl in Hd. apply andb_prop in Hd as [Hx Hd]. rewrite Hx, (IH Hd). reflexivity.
Qed.

Lemma prefix_empty s : String.prefix "" s = true.
Proof. destruct s; reflexivity. Qed.

Lemma regex_search_slice dir d q :
  no_S dir = true -> all_digits d = true -> d <> "" ->
  regex_search (slice_name dir d q) = Some d.
Proof.
  intros HS Hd Hne. unfold slice_name. rewrite regex_search_skip by exact HS.
  change ("SEC_" ++ d ++ ".PNG" ++ q)
    with (String "S" (String "E" (String "C" (String "_" (d ++ String "." ("PNG" ++ q)))))).
  rewrite regex_search_cons. unfold match_at.
  rewrite (span_digits_app d "." ("PNG" ++ q)) by (assumption || reflexivity).
  destruct d as [| x d]; [congruence |]. simpl. rewrite prefix_empty. reflexivity.
Qed.

Lemma stoi_fits d : (digits_value d <= INT_MAX)%Z -> stoi d = Returns (digits_value d).
Proof. intros H. unfold stoi. rewrite (proj2 (Z.ltb_ge _ _) H). reflexivity. Qed.

Lemma stoi_overflow d : (INT_MAX < digits_value d)%Z -> stoi d = Throws out_of_range.
Proof. intros H. unfold stoi. rewrite (proj2 (Z.ltb_lt _ _) H). reflexivity. Qed.

(** Two slice file names [dir]SEC_<n>.PNG[suffix], in directories without an
    upper-case S, are ordered by their numbers n as integers (so SEC_2 comes
    before SEC_10), as long as both fit an int. *)
Theorem customSort_slice_numbers dir1 dir2 d1 d2 q1 q2
    (HS1 : no_S dir1 = true) (HS2 : no_S dir2 = true)
    (Hd1 : all_digits d1 = true) (Hd2 : all_digits d2 = true)
    (Hne1 : d1 <> "") (Hne2 : d2 <> "")
    (Hv1 : (digits_value d1 <= INT_MAX)%Z) (Hv2 : (digits_value d2 <= INT_MAX)%Z) :
  customSort (slice_name dir1 d1 q1) (slice_name dir2 d2 q2)
    = Returns (digits_value d1 <? digits_value d2)%Z.
Proof.
  unfold customSort.
  rewrite !regex_search_slice by assumption.
  rewrite (stoi_fits d1 Hv1), (stoi_fits d2 Hv2). reflexivity.
Qed.

Lemma customSort_slice_numbers_witness :
  customSort (slice_name "C:/print/" "2" "") (slice_name "C:/print/" "10" "") = Returns true.
Proof.
  apply (customSort_slice_numbers "C:/print/" "C:/print/" "2" "10" "" "");
    try reflexivity; try discriminate; vm_compute; discriminate.
Defined.

(** Comparing two slice names of which one has a number beyond INT_MAX makes
    customSort throw std::out_of_range from std::stoi. *)
Theorem customSort_slice_overflow dir1 dir2 d1 d2 q1 q2
    (HS1 : no_S dir1 = true) (HS2 : no_S dir2 = true)
    (Hd1 : all_digits d1 = true) (Hd2 : all_digits d2 = true)
    (Hne1 : d1 <> "") (Hne2 : d2 <> "")
    (Hbig : (INT_MAX < digits_value d1)%Z \/ (INT_MAX < digits_value d2)%Z) :
  customSort (slice_name dir1 d1 q1) (slice_name dir2 d2 q2) = Throws out_of_range.
Proof.
  unfold customSort.
  rewrite !regex_search_slice by assumption.
  destruct (Z.le_gt_cases (digits_value d1) INT_MAX) as [H1 | H1].
  - rewrite (stoi_fits d1 H1). destruct Hbig as [Hb | Hb]; [lia |].
    rewrite (stoi_overflow d2 Hb). reflexivity.
  - rewrite (stoi_overflow d1 H1). reflexivity.
Qed.

Lemma customSort_slice_overflow_witness :
  customSort (slice_name "" "3000000000" "") (slice_name "" "1" "") = Throws out_of_range.
Proof.
  apply (customSort_slice_overflow "" "" "3000000000" "1" "" "");
    try reflexivity; try discriminate.
  left. vm_compute. reflexivity.
Defined.

(** customSort is not transitive once a name without the SEC_<n>.PNG form
    sits among slice names: SEC_2.PNG < SEC_10.PNG by number, SEC_10.PNG <
    SEC_1_old.PNG and SEC_1_old.PNG < SEC_2.PNG as strings.  It is then no
    strict weak ordering, which std::sort requires. *)
Theorem customSort_not_transitive :
  ~ (forall a b c, customSort a b = Returns true -> customSort b c = Returns true ->
                   customSort a c = Returns true).
Proof.
  intros H.
  specialize (H "SEC_2.PNG" "SEC_10.PNG" "SEC_1_old.PNG" eq_refl eq_refl).
  vm_compute in H. discriminate H.
Qed.

End SortProofs.

Module VelocityProofs.
Import WaitForPosition WaitForVelocity.
Local Open Scope list_scope.

Section Props.
Variable Vel : Type.
Variable stof : string -> option Vel.
Variable within_tolerance : Vel -> bool.
Variable targetVelocity : Vel.
Variable timeout_s : nat.

Local Abbreviation vl := (vloop Vel stof within_tolerance targetVelocity timeout_s).

Lemma vloop_threw iters elapsed tr e :
  vl iters elapsed = (tr, WThrew e) ->
  (exists it, In it iters /\ set_velocity it = Throws e) /\
  exists n, tr = concat (repeat [EvGetVelocity Vel; EvSetVelocity Vel targetVelocity] n)
                 ++ [EvGetVelocity Vel].
Proof.
  revert elapsed tr. induction iters as [| it rest IH]; intros elapsed tr H; [discriminate |].
  simpl in H. destruct (query_velocity Vel stof within_tolerance it (elapsed + 50)) as [vm t].
  destruct (set_velocity it) as [u | e'] eqn:Hs.
  - destruct (checkTimeout _ _); [discriminate |].
    destruct vm; [discriminate |].
    destruct (vl rest (t + v_io_ms it)) as [tr' en] eqn:E. injection H as <- ->.
    destruct (IH _ _ E) as [(it' & Hin & Ht) (n & ->)]. split.
    + exists it'. split; [right; exact Hin | exact Ht].
    + exists (S n). reflexivity.
  - injection H as <- ->. split.
    + exists it. split; [left; reflexivity | exact Hs].
    + exists 0. reflexivity.
Qed.

(** Exceptions raised by GetVelocity, substr or stof are caught inside the
    loop: waitForVelocity only throws when controller.SetVelocity, called
    after the try/catch, throws; it has then issued GetVelocity and
    SetVelocity(target) on each earlier iteration and GetVelocity on the
    last. *)
Theorem waitForVelocity_throws_only_from_SetVelocity iters tr e :
  waitForVelocity Vel stof within_tolerance targetVelocity timeout_s iters = (tr, WThrew e) ->
  (exists it, In it iters /\ set_velocity it = Throws e) /\
  exists n, tr = concat (repeat [EvGetVelocity Vel; EvSetVelocity Vel targetVelocity] n)
                 ++ [EvGetVelocity Vel].
Proof. apply vloop_threw. Qed.

Lemma substring_3_2_short s : String.length s = 3 -> String.substring 3 2 s = "".
Proof.
  destruct s as [| a [| b [| c [| d s]]]]; simpl; try discriminate; reflexivity.
Qed.

(** The velocity is read from the two characters at index 3 of the reply
    (with CR and LF removed), so a reply shorter than four characters never
    matches: with two characters substr(3, 2) throws out_of_range, with
    three it yields "", which std::stof rejects; both are caught. *)
Theorem velocity_reading_window it vel t
    (Hget : get_velocity it = Returns vel) (Hempty : stof "" = None) :
  fst (query_velocity Vel stof within_tolerance it t) =
    Nat.leb 4 (String.length (remove_crlf vel)) &&
    match stof (String.substring 3 2 (remove_crlf vel)) with
    | Some v => within_tolerance v
    | None => false
    end.
Proof.
  unfold query_velocity. rewrite Hget. cbv zeta.
  remember (remove_crlf vel) as s eqn:Hs. clear Hs.
  destruct (Nat.leb 2 (String.length s)) eqn:H2.
  - apply Nat.leb_le in H2. unfold substr.
    destruct (Nat.ltb (String.length s) 3) eqn:H3.
    + apply Nat.ltb_lt in H3.
      replace (Nat.leb 4 (String.length s)) with false by (symmetry; apply Nat.leb_gt; lia).
      reflexivity.
    + apply Nat.ltb_ge in H3.
      destruct (Nat.eq_dec (String.length s) 3) as [E3 | E3].
      * rewrite (substring_3_2_short s E3), Hempty. rewrite E3. reflexivity.
      * replace (Nat.leb 4 (String.length s)) with true by (symmetry; apply Nat.leb_le; lia).
        simpl. destruct (stof (String.substring 3 2 s)); reflexivity.
  - apply Nat.leb_gt in H2.
    replace (Nat.leb 4 (String.length s)) with false by (symmetry; apply Nat.leb_gt; lia).
    reflexivity.
Qed.

End Props.

Lemma waitForVelocity_throws_only_from_SetVelocity_witness :
  let it := {| get_velocity := Throws serial_exception; set_velocity := Throws serial_exception;
               v_io_ms := 0 |} in
  waitForVelocity Z (fun _ => Some 0%Z) (fun _ => true) 0%Z 60 [it]
    = ([EvGetVelocity Z], WThrew serial_exception) /\
  ((exists it', In it' [it] /\ set_velocity it' = Throws serial_exception) /\
   exists n, [EvGetVelocity Z] = concat (repeat [EvGetVelocity Z; EvSetVelocity Z 0%Z] n)
                                 ++ [EvGetVelocity Z]).
Proof.
  intros it. split; [reflexivity |].
  apply (waitForVelocity_throws_only_from_SetVelocity Z (fun _ => Some 0%Z) (fun _ => true) 0%Z 60
           [it] [EvGetVelocity Z] serial_exception).
  reflexivity.
Defined.

Lemma velocity_reading_window_witness :
  let it := {| get_velocity := Returns "1VA"%string; set_velocity := Returns tt; v_io_ms := 0 |} in
  fst (query_velocity Z (fun w => if String.eqb w "" then None else Some 1%Z)
         (fun _ => true) it 0) = false.
Proof.
  intros it.
  rewrite (velocity_reading_window Z (fun w => if String.eqb w "" then None else Some 1%Z)
             (fun _ => true) it "1VA"%string 0 eq_refl eq_refl).
  reflexivity.
Defined.

End VelocityProofs.

Module TexProofs.
Import Settings PrintLoop TexObs.
Local Open Scope list_scope.

Lemma tex_run_app n m a b :
  tex_run n m (a ++ b) = match tex_run n m a with Some m' => tex_run n m' b | None => None end.
Proof.
  revert m. induction a as [| ev a IH]; intros m; [reflexivity |].
  simpl. destruct (tex_step n m ev); [apply IH | reflexivity].
Qed.

Lemma tex_run_present n m tex tr :
  get_slot m tex = Some (swaps m) -> tex_run n m (EvPresentImage tex :: tr) = tex_run n m tr.
Proof. intros H. simpl. rewrite H. simpl. rewrite Nat.eqb_refl. reflexivity. Qed.

Lemma tex_run_load n m tex k tr :
  k = S (swaps m) -> k < n -> tex <= 1 -> get_slot m tex <> Some (swaps m) ->
  tex_run n m (EvLoadTexture tex k :: tr) = tex_run n (put_slot m tex k) tr.
Proof.
  intros -> Hn Ht Hs. simpl tex_run.
  rewrite Nat.eqb_refl, (proj2 (Nat.ltb_lt _ _) Hn), (proj2 (Nat.leb_le _ _) Ht).
  destruct (get_slot m tex) as [x |] eqn:E; simpl.
  - destruct (Nat.eqb x (swaps m)) eqn:Ex; [apply Nat.eqb_eq in Ex; congruence | reflexivity].
  - reflexivity.
Qed.

Lemma get_put_same m tex k : tex <= 1 -> get_slot (put_slot m tex k) tex = Some k.
Proof. intros H. unfold get_slot, put_slot. destruct tex as [| [|]]; simpl; reflexivity || lia. Qed.

Lemma get_put_other m tex k j :
  tex <= 1 -> j <= 1 -> j <> tex -> get_slot (put_slot m tex k) j = get_slot m j.
Proof.
  intros H Hj Hne. unfold get_slot, put_slot.
  destruct tex as [| [|]], j as [| [|]]; simpl; reflexivity || lia.
Qed.

Lemma swaps_put m tex k : swaps (put_slot m tex k) = swaps m.
Proof. unfold put_slot. destruct (Nat.eqb tex 0); reflexivity. Qed.

Lemma tex_run_if_neutral n m (b : bool) ev tr :
  (forall m', tex_step n m' ev = Some m') ->
  tex_run n m ((if b then [ev] else []) ++ tr) = tex_run n m tr.
Proof. intros H. destruct b; simpl; [rewrite H |]; reflexivity. Qed.

Lemma light_branch_tex n mc il t s s' evs m :
  tinv s m -> light_branch mc il t s = (s', evs) -> tex_run n m evs = Some m /\ tinv s' m.
Proof.
  intros Hi H. destruct Hi as (Hsw & Hct & Hcur & Hnext & Hll).
  unfold light_branch in H. destruct (mc <=? imageDisplayCount s + 1)%Z; injection H as <- <-.
  - rewrite tex_run_present by congruence. split; [reflexivity |].
    unfold tinv; simpl. auto.
  - rewrite tex_run_present by congruence. split; [reflexivity |].
    unfold tinv; simpl. auto.
Qed.

Lemma tex_run_blank n m tr : tex_run n m (EvPresentBlank :: tr) = tex_run n m tr.
Proof. reflexivity. Qed.
Lemma tex_run_launch n m tr : tex_run n m (EvLaunchMove :: tr) = tex_run n m tr.
Proof. reflexivity. Qed.
Lemma tex_run_join n m tr : tex_run n m (EvJoinMove :: tr) = tex_run n m tr.
Proof. reflexivity. Qed.
Lemma tex_run_swap n m t0 tr :
  tex_run n m (EvSwap t0 :: tr) = tex_run n {| slot0 := slot0 m; slot1 := slot1 m; swaps := S (swaps m) |} tr.
Proof. reflexivity. Qed.
Lemma tex_run_nil n m : tex_run n m [] = Some m.
Proof. reflexivity. Qed.

Create Rewrite HintDb tex_db.
Lemma tex_run_neutral n m ev tr : tex_step n m ev = Some m -> tex_run n m (ev :: tr) = tex_run n m tr.
Proof. intros H. simpl. rewrite H. reflexivity. Qed.

#[local] Hint Rewrite tex_run_blank tex_run_launch tex_run_join tex_run_swap tex_run_nil : tex_db.
#[local] Hint Rewrite tex_run_neutral using reflexivity : tex_db.

Lemma get_slot_swap m w j :
  get_slot {| slot0 := slot0 m; slot1 := slot1 m; swaps := w |} j = get_slot m j.
Proof. unfold get_slot. destruct (Nat.eqb j 0); reflexivity. Qed.

Lemma dark_branch_tex n dd t s s' evs sw m :
  tinv s m -> dark_branch dd n t s = (s', evs, sw) ->
  exists m', tex_run n m evs = Some m' /\ tinv s' m'.
Proof.
  intros Hi H. destruct Hi as (Hsw & Hct & Hcur & Hnext & Hll).
  unfold dark_branch in H. rewrite Hll in H.
  destruct (isNextImageLoading s) eqn:Hl;
  destruct (Nat.ltb (S (currentImageIndex s)) n) eqn:Hhn;
  destruct (isStageThreadRunning s) eqn:Hr;
  destruct (move_ready t) eqn:Hm;
  destruct (dd <? now t - darkTimeStart s)%Z eqn:Hd;
  simpl in H; injection H as <- <- _;
  eexists; (split;
    [ simpl app; autorewrite with tex_db;
      try (rewrite tex_run_load by (try apply Nat.ltb_lt; try lia; congruence);
           autorewrite with tex_db);
      reflexivity
    | unfold tinv; simpl; rewrite ?get_slot_swap ]);
  repeat split; try lia; try congruence;
  repeat first
    [ rewrite get_put_same by lia
    | rewrite get_put_other by lia
    | rewrite swaps_put
    | replace (1 - (1 - currentTextureIndex s)) with (currentTextureIndex s) by lia ];
  try congruence; try (intros Heq; injection Heq; lia);
  rewrite Hcur; intros Heq; injection Heq; lia.
Qed.


Lemma tinv_init : tinv init_state tex_init.
Proof. unfold tinv; simpl. repeat split; try lia. discriminate. Qed.

Lemma finish_iter_tex n m m' s' evs sw :
  tex_run n m evs = Some m' -> tinv s' m' ->
  match finish_iter s' evs sw with
  | IAbort _ => False
  | IBreak s'' evs' | ICont s'' evs' _ => exists m'', tex_run n m evs' = Some m'' /\ tinv s'' m''
  end.
Proof.
  intros Hr Hi. unfold finish_iter. destruct (_ && _).
  - exists m'. rewrite tex_run_app, Hr. split; [reflexivity | exact Hi].
  - exists m'. split; assumption.
Qed.

Lemma full_iter_tex p t s m :
  tinv s m ->
  match full_iter p t s with
  | IAbort evs => tex_run (nimages p) m evs = Some m
  | IBreak s' evs | ICont s' evs _ => exists m', tex_run (nimages p) m evs = Some m' /\ tinv s' m'
  end.
Proof.
  intros Hi. unfold full_iter.
  assert (H0 : forall tr, tex_run (nimages p) m ((if closed t then [EvCloseWindow] else []) ++ tr)
                          = tex_run (nimages p) m tr).
  { intros tr. destruct (closed t); reflexivity. }
  destruct (displayImage s).
  - destruct (abort t).
    + rewrite H0. reflexivity.
    + destruct (light_branch _ _ t s) as [s' evs] eqn:E.
      destruct (light_branch_tex (nimages p) _ _ _ _ _ _ m Hi E) as [Hr Hi'].
      pose proof (finish_iter_tex (nimages p) m m s' ((if closed t then [EvCloseWindow] else []) ++ evs)
                    false) as F.
      rewrite H0 in F. specialize (F Hr Hi').
      destruct (finish_iter _ _ _); [contradiction | exact F | exact F].
  - destruct (dark_branch _ _ t s) as [[s' evs] sw] eqn:E.
    destruct (dark_branch_tex _ _ _ _ _ _ _ m Hi E) as (m' & Hr & Hi').
    pose proof (finish_iter_tex (nimages p) m m' s' ((if closed t then [EvCloseWindow] else []) ++ evs)
                  sw) as F.
    rewrite H0 in F. specialize (F Hr Hi').
    destruct (finish_iter _ _ _); [contradiction | exact F | exact F].
Qed.


Lemma full_loop_tex p ticks : forall isOpen s m,
  tinv s m ->
  exists m', tex_run (nimages p) m (fst (full_loop p ticks isOpen s)) = Some m' /\
    match snd (full_loop p ticks isOpen s) with
    | LAborted s' | LExited s' | LPending s' => tinv s' m'
    end.
Proof.
  induction ticks as [| t ts IH]; intros isOpen s m Hi; simpl.
  - destruct isOpen; simpl; exists m; auto.
  - destruct isOpen; simpl; [| exists m; auto].
    pose proof (full_iter_tex p t s m Hi) as F.
    destruct (full_iter p t s) as [evs | s' evs | s' evs sw]; simpl.
    + exists m. auto.
    + exact F.
    + destruct F as (m' & Hr & Hi').
      destruct (IH (negb (closed t)) s' m' Hi') as (m'' & Hr' & Hi'').
      destruct (full_loop p ts (negb (closed t)) s') as [tr e]. simpl in *.
      exists m''. rewrite tex_run_app, Hr. auto.
Qed.

Lemma tex_run_exit n m s : tex_run n m (scope_exit s) = Some m /\ tex_run n m (shutdown s) = Some m.
Proof. unfold scope_exit, shutdown. destruct (isStageThreadRunning s); split; reflexivity. Qed.

(** RunFull keeps the texture discipline: it loads images 1, 2, 3, ... in
    order, each below imagePaths.size(), alternately into the texture not
    on show; every frame of a light phase presents the texture holding
    image k, k being the number of buffer swaps so far; and it never
    overwrites the texture on show. *)
Theorem RunFull_texture_discipline p ticks :
  exists m, tex_run (nimages p) tex_init (fst (RunFull p ticks)) = Some m.
Proof.
  unfold RunFull.
  destruct (full_loop_tex p ticks true init_state tex_init tinv_init) as (m & Hr & Hi).
  destruct (full_loop p ticks true init_state) as [tr e]. simpl in *.
  destruct e as [s | s | s]; simpl; exists m; rewrite ?tex_run_app, Hr;
    try apply tex_run_exit; reflexivity.
Qed.

Lemma dyn_iter_tex n setting t s m :
  tinv s m ->
  match dyn_iter n setting t s with
  | IAbort evs => tex_run n m evs = Some m
  | IBreak s' evs | ICont s' evs _ => exists m', tex_run n m evs = Some m' /\ tinv s' m'
  end.
Proof.
  intros Hi. unfold dyn_iter.
  destruct (displayImage s).
  - destruct (abort t); [reflexivity |].
    destruct (light_branch _ _ t s) as [s' evs] eqn:E.
    destruct (light_branch_tex n _ _ _ _ _ _ m Hi E) as [Hr Hi'].
    pose proof (finish_iter_tex n m m s' evs false Hr Hi') as F.
    destruct (finish_iter _ _ _); [contradiction | exact F | exact F].
  - destruct (dark_branch _ _ t s) as [[s' evs] sw] eqn:E.
    destruct (dark_branch_tex _ _ _ _ _ _ _ m Hi E) as (m' & Hr & Hi').
    assert (Hr2 : tex_run n m (evs ++ if sw then [EvPrintedLayer setting] else []) = Some m').
    { rewrite tex_run_app, Hr. destruct sw; reflexivity. }
    pose proof (finish_iter_tex n m m' s' _ sw Hr2 Hi') as F.
    destruct (finish_iter _ _ _); [contradiction | exact F | exact F].
Qed.

Lemma dyn_group_tex n setting layerCount ticks : forall layercounter s m,
  tinv s m ->
  exists m', tex_run n m (fst (dyn_group n setting layerCount ticks layercounter s)) = Some m' /\
    match snd (dyn_group n setting layerCount ticks layercounter s) with
    | GAborted s' | GDone s' _ | GPending s' => tinv s' m'
    end.
Proof.
  induction ticks as [| t ts IH]; intros lc s m Hi; simpl.
  - destruct (lc <=? layerCount)%Z; simpl; exists m; auto.
  - destruct (lc <=? layerCount)%Z; simpl; [| exists m; auto].
    pose proof (dyn_iter_tex n setting t s m Hi) as F.
    destruct (dyn_iter n setting t s) as [evs | s' evs | s' evs sw]; simpl.
    + exists m. auto.
    + exact F.
    + destruct F as (m' & Hr & Hi').
      destruct (IH (if sw then (lc + 1)%Z else lc) s' m' Hi') as (m'' & Hr' & Hi'').
      destruct (dyn_group n setting layerCount ts _ s') as [tr e]. simpl in *.
      exists m''. rewrite tex_run_app, Hr. auto.
Qed.

Lemma dyn_groups_tex n gs : forall ticks s m,
  tinv s m ->
  exists m', tex_run n m (fst (dyn_groups n gs ticks s)) = Some m' /\
    match snd (dyn_groups n gs ticks s) with
    | GAborted s' | GDone s' _ | GPending s' => tinv s' m'
    end.
Proof.
  induction gs as [| [setting layerCount] gs IH]; intros ticks s m Hi; simpl.
  - exists m. auto.
  - destruct (dyn_group_tex n setting layerCount ticks 0%Z s m Hi) as (m' & Hr & Hi').
    destruct (dyn_group n setting layerCount ticks 0 s) as [tr e]. simpl in *.
    destruct e as [s' | s' ts | s'].
    + simpl. exists m'. auto.
    + destruct (IH ts s' m' Hi') as (m'' & Hr' & Hi'').
      destruct (dyn_groups n gs ts s') as [tr' e']. simpl in *.
      exists m''. rewrite tex_run_app, Hr. auto.
    + simpl. exists m'. auto.
Qed.

(** RunFullDynamic keeps the same texture discipline across its groups of
    layers: images 1, 2, 3, ... are loaded in order below imagePaths.size()
    into the texture not on show, and every presented frame shows image k
    after k swaps. *)
Theorem RunFullDynamic_texture_discipline n orderedSettings ticks :
  exists m, tex_run n tex_init (fst (RunFullDynamic n orderedSettings ticks)) = Some m.
Proof.
  unfold RunFullDynamic.
  destruct (dyn_groups_tex n orderedSettings ticks init_state tex_init tinv_init) as (m & Hr & Hi).
  destruct (dyn_groups n orderedSettings ticks init_state) as [tr e]. simpl in *.
  destruct e as [s | s ts | s]; simpl; exists m; rewrite ?tex_run_app, Hr;
    try apply tex_run_exit; reflexivity.
Qed.

End TexProofs.

Module LightProofs.
Import Settings PrintLoop TexObs.
Local Open Scope list_scope.








End LightProofs.


Module ShownProofs.
Import Settings PrintLoop TexObs.
Local Open Scope list_scope.

Lemma shown_inv_init n : shown_inv n init_state.
Proof. unfold shown_inv. simpl. split; [reflexivity | discriminate]. Qed.

Lemma dyn_iter_shown_inv n setting t s :
  shown_inv n s ->
  match dyn_iter n setting t s with
  | IAbort _ => True
  | IBreak s' _ | ICont s' _ _ => shown_inv n s'
  end.
Proof.
  unfold shown_inv. intros [Hl Hs]. unfold dyn_iter.
  destruct (displayImage s) eqn:Hd.
  - destruct (abort t); [exact I |].
    destruct (allImagesShown s) eqn:Ha; [destruct (Hs eq_refl) as [Hd' _]; congruence |].
    unfold light_branch, finish_iter. destruct (_ <=? _)%Z; simpl; rewrite Ha; simpl;
      (split; [assumption | discriminate]).
  - unfold dark_branch. rewrite Hl.
    destruct (Nat.ltb (S (currentImageIndex s)) n) eqn:Hn;
      [| apply Nat.ltb_ge in Hn];
    destruct (isNextImageLoading s) eqn:Hld, (isStageThreadRunning s), (move_ready t),
      (allImagesShown s) eqn:Ha, (darkTime setting <? now t - darkTimeStart s)%Z;
      unfold finish_iter; simpl;
      try (destruct (Hs eq_refl) as (_ & Hx & _); discriminate);
      try (apply Nat.ltb_lt in Hn; destruct (Hs eq_refl) as (_ & _ & Hx); exfalso; lia);
      try (split; [reflexivity | intros; try discriminate; repeat split; lia]);
      try (destruct (Hs eq_refl) as (_ & _ & Hx); split; [reflexivity | intros; repeat split; lia]).
Qed.

Lemma dyn_group_shown_inv n setting layerCount ticks : forall layercounter s,
  shown_inv n s ->
  match snd (dyn_group n setting layerCount ticks layercounter s) with
  | GAborted s' | GDone s' _ | GPending s' => shown_inv n s'
  end.
Proof.
  induction ticks as [| t ts IH]; intros lc s Hi; simpl.
  - destruct (lc <=? layerCount)%Z; exact Hi.
  - destruct (lc <=? layerCount)%Z; [| exact Hi].
    pose proof (dyn_iter_shown_inv n setting t s Hi) as F.
    destruct (dyn_iter n setting t s) as [evs | s' evs | s' evs sw]; simpl.
    + exact Hi.
    + exact F.
    + specialize (IH (if sw then (lc + 1)%Z else lc) s' F).
      destruct (dyn_group n setting layerCount ts _ s') as [tr e]. exact IH.
Qed.

Lemma dyn_groups_shown_inv n gs : forall ticks s,
  shown_inv n s ->
  match snd (dyn_groups n gs ticks s) with
  | GAborted s' | GDone s' _ | GPending s' => shown_inv n s'
  end.
Proof.
  induction gs as [| [setting layerCount] gs IH]; intros ticks s Hi; simpl; [exact Hi |].
  pose proof (dyn_group_shown_inv n setting layerCount ticks 0%Z s Hi) as F.
  destruct (dyn_group n setting layerCount ticks 0 s) as [tr [s' | s' ts | s']]; simpl in *;
    try exact F.
  specialize (IH ts s' F). destruct (dyn_groups n gs ts s'). exact IH.
Qed.

Lemma dyn_groups_cons_fst n setting layerCount gs ticks s :
  fst (dyn_groups n ((setting, layerCount) :: gs) ticks s) =
  [EvApplySettings setting; EvSetCurrent (Z.land (intensity setting) 255)] ++
  fst (dyn_group n setting layerCount ticks 0 s) ++
  match snd (dyn_group n setting layerCount ticks 0 s) with
  | GDone s' ts => fst (dyn_groups n gs ts s')
  | _ => []
  end.
Proof.
  simpl. destruct (dyn_group n setting layerCount ticks 0 s) as [tr [s' | s' ts | s']]; simpl;
    [rewrite app_nil_r; reflexivity | | rewrite app_nil_r; reflexivity].
  destruct (dyn_groups n gs ts s'). reflexivity.
Qed.

Lemma dyn_group_after_shown n setting layerCount t ts s :
  shown_inv n s -> allImagesShown s = true -> (0 <= layerCount)%Z ->
  exists s',
    dyn_group n setting layerCount (t :: ts) 0 s =
      ([EvPresentBlank] ++ (if isStageThreadRunning s then [] else [EvLaunchMove])
       ++ (if move_ready t then [EvJoinMove] else []) ++ [EvSetCurrent 0], GDone s' ts) /\
    shown_inv n s' /\ allImagesShown s' = true /\ isStageThreadRunning s' = negb (move_ready t).
Proof.
  unfold shown_inv. intros [Hl Hs] Ha Hlc.
  destruct (Hs Ha) as (Hd & Hld & Hn).
  cbn [dyn_group]. rewrite (proj2 (Z.leb_le 0 layerCount) Hlc).
  unfold dyn_iter. rewrite Hd. unfold dark_branch.
  rewrite Hl, Hld, Ha, (proj2 (Nat.ltb_ge _ _) Hn).
  destruct (isStageThreadRunning s), (move_ready t), (darkTime setting <? now t - darkTimeStart s)%Z;
    simpl; eexists; (split; [reflexivity |]); simpl;
    repeat split; try reflexivity; intros; lia.
Qed.

Lemma leftover_after_shown n gs : forall ticks s,
  shown_inv n s -> allImagesShown s = true ->
  fst (dyn_groups n gs ticks s) = leftover_groups gs ticks (isStageThreadRunning s).
Proof.
  induction gs as [| [setting layerCount] gs IH]; intros ticks s Hi Ha; [reflexivity |].
  rewrite dyn_groups_cons_fst. cbn [leftover_groups].
  destruct (layerCount <? 0)%Z eqn:Hlc.
  - apply Z.ltb_lt in Hlc.
    assert (E : dyn_group n setting layerCount ticks 0 s = ([], GDone s ticks)).
    { destruct ticks; simpl; rewrite (proj2 (Z.leb_gt 0 layerCount) Hlc); reflexivity. }
    rewrite E. simpl. f_equal. f_equal. apply IH; assumption.
  - apply Z.ltb_ge in Hlc. f_equal.
    destruct ticks as [| t ts].
    + simpl. rewrite (proj2 (Z.leb_le 0 layerCount) Hlc). reflexivity.
    + destruct (dyn_group_after_shown n setting layerCount t ts s Hi Ha Hlc) as (s' & E & Hi' & Ha' & Hr).
      rewrite E. simpl snd. cbv iota. rewrite (IH ts s' Hi' Ha'), Hr.
      simpl. rewrite <- !app_assoc. reflexivity.
Qed.

(** Once RunFullDynamic has shown its last image in some group (the
    "All images shown" break of its inner loop), every later group of
    orderedSettings still applies its settings and sets the light to
    static_cast<U8>(intensity), then shows one blank frame, launches a stage move if
    none is in flight, joins it once ready, and switches the light off
    again: groups left after the images are exhausted are not skipped. *)
Theorem RunFullDynamic_leftover_groups n gs1 gs2 ticks tr1 s ts :
  dyn_groups n gs1 ticks init_state = (tr1, GDone s ts) -> allImagesShown s = true ->
  fst (dyn_groups n gs2 ts s) = leftover_groups gs2 ts (isStageThreadRunning s).
Proof.
  intros E Ha.
  pose proof (dyn_groups_shown_inv n gs1 ticks init_state (shown_inv_init n)) as Hi.
  rewrite E in Hi. apply leftover_after_shown; assumption.
Qed.

End ShownProofs.

Lemma RunFullDynamic_leftover_groups_witness :
  PrintLoop.dyn_groups 1 [(LoopSamples.lg_setting, 5%Z)] [LoopSamples.lg_tick 0 false; LoopSamples.lg_tick 1 false; LoopSamples.lg_tick 2 true] PrintLoop.init_state
    = ([PrintLoop.EvApplySettings LoopSamples.lg_setting; PrintLoop.EvSetCurrent 10; PrintLoop.EvPresentImage 0;
        PrintLoop.EvGetPosition; PrintLoop.EvDarkStart 0; PrintLoop.EvPresentBlank;
        PrintLoop.EvLaunchMove; PrintLoop.EvSetCurrent 0],
       PrintLoop.GDone LoopSamples.lg_state [LoopSamples.lg_tick 2 true]) /\
  PrintLoop.allImagesShown LoopSamples.lg_state = true /\
  fst (PrintLoop.dyn_groups 1 [(LoopSamples.lg_setting, 3%Z); (LoopSamples.lg_setting, 2%Z)] [LoopSamples.lg_tick 2 true] LoopSamples.lg_state)
    = TexObs.leftover_groups [(LoopSamples.lg_setting, 3%Z); (LoopSamples.lg_setting, 2%Z)] [LoopSamples.lg_tick 2 true]
        (PrintLoop.isStageThreadRunning LoopSamples.lg_state).
Proof.
  split; [vm_compute; reflexivity |]. split; [reflexivity |].
  apply (ShownProofs.RunFullDynamic_leftover_groups 1 [(LoopSamples.lg_setting, 5%Z)] _
           [LoopSamples.lg_tick 0 false; LoopSamples.lg_tick 1 false; LoopSamples.lg_tick 2 true]
           [PrintLoop.EvApplySettings LoopSamples.lg_setting; PrintLoop.EvSetCurrent 10; PrintLoop.EvPresentImage 0;
            PrintLoop.EvGetPosition; PrintLoop.EvDarkStart 0; PrintLoop.EvPresentBlank;
            PrintLoop.EvLaunchMove; PrintLoop.EvSetCurrent 0]).
  - vm_compute. reflexivity.
  - reflexivity.
Defined.
